(** * homebridge-eufy-robovac: a shallow embedding of the device session
      ([RoboVac], eufy-robovac.ts) and of the HomeKit accessory
      ([EufyRoboVacAccessory], index.ts).

    The TypeScript code is asynchronous and talks to three collaborators
    that are not part of the repository: the TuyAPI transport, the
    homebridge logger and the HAP completion callbacks.  The embedding
    threads two pieces of state through every method:

    - the object itself ([RoboVac] or [Accessory]), a record with the
      fields of the class;
    - a [World]: the wall clock, the list of observable events performed so
      far (transport requests, timers, completion callbacks), the log, and
      an oracle that fixes what the transport answers to its n-th request.

    A method is a function [obj -> World -> Outcome A * obj * World]; a
    rejected promise / thrown exception is the outcome [Throw].  Every
    handler is run to completion before the next one starts (there is no
    interleaving between two handlers in this model). *)

From Stdlib Require Import ZArith.
From stdpp Require Import gmap strings list.

Local Open Scope string_scope.
Local Open Scope list_scope.
Local Open Scope Z_scope.

(** ** Data model (eufy-robovac.ts, lines 7-70) *)

Module CleanSpeed.
Definition STANDARD : string := "Standard".
Definition BOOST_IQ : string := "Boost_IQ".
Definition MAX : string := "Max".
Definition NO_SUCTION : string := "No_suction".
End CleanSpeed.

Module ErrorCode.
Definition NO_ERROR : string := "no_error".
Definition STUCK_5_MIN : string := "Stuck_5_min".
Definition CRASH_BAR_STUCK : string := "Crash_bar_stuck".
Definition SENSOR_DIRTY : string := "sensor_dirty".
Definition NOT_ENOUGH_POWER : string := "N_enough_pow".
Definition WHEEL_STUCK : string := "Wheel_stuck".
Definition S_BRUSH_STUCK : string := "S_brush_stuck".
Definition FAN_STUCK : string := "Fan_stuck".
Definition R_BRUSH_STUCK : string := "R_brush_stuck".
End ErrorCode.

Module WorkStatus.
Definition RUNNING : string := "Running".
Definition STAND_BY : string := "standby".
Definition SLEEPING : string := "Sleeping".
Definition CHARGING : string := "Charging".
Definition COMPLETED : string := "completed".
Definition RECHARGE_NEEDED : string := "Recharge".
End WorkStatus.

Module WorkMode.
Definition AUTO : string := "auto".
Definition SMALL_ROOM : string := "SmallRoom".
Definition SPOT : string := "Spot".
Definition EDGE : string := "Edge".
Definition NO_SWEEP : string := "Nosweep".
End WorkMode.

(** A value of type [string | number | boolean], as carried by a write
    request.  Numbers are the integers the device exchanges (the battery
    percentage). *)
Inductive DpValue :=
  | VBool (b : bool)
  | VStr (s : string)
  | VNum (n : Z).

#[global] Instance DpValue_eq_dec : EqDecision DpValue.
Proof. solve_decision. Defined.

(** [interface StatusResponse]: one typed field per data-point code. *)
Record Dps := {
  dp1 : bool;
  dp2 : bool;
  dp3 : string;
  dp5 : string;
  dp15 : string;
  dp101 : bool;
  dp102 : string;
  dp103 : bool;
  dp104 : Z;
  dp106 : string
}.

Record StatusResponse := {
  devId : string;
  dps : Dps
}.

#[global] Instance Dps_eq_dec : EqDecision Dps.
Proof. solve_decision. Defined.
#[global] Instance StatusResponse_eq_dec : EqDecision StatusResponse.
Proof. solve_decision. Defined.

(** A thrown value. *)
Inductive JsError := JsErr (msg : string).

#[global] Instance JsError_eq_dec : EqDecision JsError.
Proof. solve_decision. Defined.

(** A configuration string that may be missing ([undefined]); it is falsy
    when missing or empty. *)
Definition falsy (o : option string) : bool :=
  match o with
  | None => true
  | Some s => bool_decide (s = "")
  end.

(** ** The world outside the two classes *)

(** What TuyAPI emits on its event channel. *)
Inductive ApiEvent :=
  | EvError (e : JsError)
  | EvConnected
  | EvDisconnected
  | EvDpRefresh (data : gmap string DpValue)
  | EvData (data : StatusResponse).

(** The options object handed to [new TuyAPI]. *)
Record ApiOptions := {
  opt_id : option string;
  opt_key : option string;
  opt_ip : option string;
  opt_port : Z;
  opt_version : string;
  opt_issueRefreshOnConnect : bool
}.

(** The part of a TuyAPI instance the session reads: [api.device]. *)
Record TuyAPI := {
  device_id : option string;
  device_key : option string;
  device_ip : option string;
  device_port : Z
}.

(** The completion of one suspension (a transport request or a timer):
    how much wall-clock time went by, which events the transport emitted
    meanwhile, whether the request was rejected, and the data a successful
    request carries ([get] resolves with [reply_status], [find] fills in
    [reply_id] and [reply_ip]). *)
Record Reply := {
  elapsed : Z;
  emitted : list ApiEvent;
  rejected : option JsError;
  reply_status : StatusResponse;
  reply_id : string;
  reply_ip : string
}.

Inductive ErrArg := ErrUndefined | ErrNull.

Inductive ChargingState := NOT_CHARGING | CHARGING | NOT_CHARGEABLE.
Inductive StatusLowBattery := BATTERY_LEVEL_NORMAL | BATTERY_LEVEL_LOW.

(** The second argument of a GET completion callback. *)
Inductive CharacteristicValue :=
  | CvBool (b : bool)
  | CvNum (n : Z)
  | CvChargingState (c : ChargingState)
  | CvStatusLowBattery (l : StatusLowBattery).

(** Observable events, in the order they happen. *)
Inductive Event :=
  | ApiFind (timeout : Z)
  | ApiConnect
  | ApiDisconnect
  | ApiGet (schema : bool)
  | ApiSet (multiple : bool) (data : gmap string DpValue)
  | Sleep (ms : Z)
  | GetCallback (err : ErrArg) (value : CharacteristicValue)
  | SetCallback.

#[global] Instance ErrArg_eq_dec : EqDecision ErrArg.
Proof. solve_decision. Defined.
#[global] Instance ChargingState_eq_dec : EqDecision ChargingState.
Proof. solve_decision. Defined.
#[global] Instance StatusLowBattery_eq_dec : EqDecision StatusLowBattery.
Proof. solve_decision. Defined.
#[global] Instance CharacteristicValue_eq_dec : EqDecision CharacteristicValue.
Proof. solve_decision. Defined.
#[global] Instance Event_eq_dec : EqDecision Event.
Proof. solve_decision. Defined.

(** Log lines; the interpolated parts of a message are left out. *)
Inductive LogEntry :=
  | LogDebug (msg : string)
  | LogInfo (msg : string)
  | LogError (msg : string).

Record World := {
  replies : nat -> Reply;
  tuyapi_rejects : ApiOptions -> option JsError;
  tick : nat;
  now : Z;
  trace : list Event;
  logs : list LogEntry
}.

Definition add_log (l : LogEntry) (w : World) : World :=
  {| replies := replies w; tuyapi_rejects := tuyapi_rejects w;
     tick := tick w; now := now w; trace := trace w;
     logs := logs w ++ [l] |}.

Definition add_event (e : Event) (w : World) : World :=
  {| replies := replies w; tuyapi_rejects := tuyapi_rejects w;
     tick := tick w; now := now w; trace := trace w ++ [e];
     logs := logs w |}.

(** The suspension ends: the next reply of the oracle is consumed and the
    clock moves on by [extra] plus the reply's own delay. *)
Definition advance (extra : Z) (w : World) : World :=
  {| replies := replies w; tuyapi_rejects := tuyapi_rejects w;
     tick := S (tick w); now := now w + extra + elapsed (replies w (tick w));
     trace := trace w; logs := logs w |}.

(** ** The state-and-exception monad *)

Inductive Outcome (A : Type) :=
  | Ok (a : A)
  | Throw (e : JsError).
Arguments Ok {A} a.
Arguments Throw {A} e.

Definition M (S A : Type) : Type := S -> World -> Outcome A * S * World.

Definition ret {S A} (a : A) : M S A := fun s w => (Ok a, s, w).

Definition throw {S A} (e : JsError) : M S A := fun s w => (Throw e, s, w).

Definition bind {S A B} (m : M S A) (k : A -> M S B) : M S B :=
  fun s w =>
    match m s w with
    | (Ok a, s', w') => k a s' w'
    | (Throw e, s', w') => (Throw e, s', w')
    end.

(** [try { m } catch (e) { h e }] *)
Definition try_catch {S A} (m : M S A) (h : JsError -> M S A) : M S A :=
  fun s w =>
    match m s w with
    | (Ok a, s', w') => (Ok a, s', w')
    | (Throw e, s', w') => h e s' w'
    end.

Definition get_self {S} : M S S := fun s w => (Ok s, s, w).
Definition modify {S} (f : S -> S) : M S unit := fun s w => (Ok tt, f s, w).
Definition with_world {S} (f : World -> World) : M S unit :=
  fun s w => (Ok tt, s, f w).

(** [(new Date()).getTime()] *)
Definition date_now {S} : M S Z := fun s w => (Ok (now w), s, w).

Definition log_debug {S} (msg : string) : M S unit := with_world (add_log (LogDebug msg)).
Definition log_info {S} (msg : string) : M S unit := with_world (add_log (LogInfo msg)).
Definition log_error {S} (msg : string) : M S unit := with_world (add_log (LogError msg)).
Definition emit {S} (e : Event) : M S unit := with_world (add_event e).

Declare Scope js_scope.
Delimit Scope js_scope with js.
Notation "x <- m ;; k" := (bind m (fun x => k))
  (at level 100, m at next level, right associativity) : js_scope.
Notation "m ;; k" := (bind m (fun _ => k))
  (at level 100, right associativity) : js_scope.
Local Open Scope js_scope.

(** ** The device session: [class RoboVac] (eufy-robovac.ts, lines 72-305) *)

Record Config := {
  deviceId : option string;
  localKey : option string;
  ip : option string;
  port : Z
}.

Record RoboVac := {
  api : TuyAPI;
  connected : bool;
  statuses : option StatusResponse;
  lastStatusUpdate : option Z;
  maxStatusUpdateAge : Z;
  timeoutDuration : Z
}.

Definition PLAY_PAUSE : string := "2".
Definition DIRECTION : string := "3".
Definition WORK_MODE : string := "5".
Definition WORK_STATUS : string := "15".
Definition GO_HOME : string := "101".
Definition CLEAN_SPEED : string := "102".
Definition FIND_ROBOT : string := "103".
Definition BATTERY_LEVEL : string := "104".
Definition ERROR_CODE : string := "106".

Definition set_api (a : TuyAPI) (s : RoboVac) : RoboVac :=
  {| api := a; connected := connected s; statuses := statuses s;
     lastStatusUpdate := lastStatusUpdate s;
     maxStatusUpdateAge := maxStatusUpdateAge s;
     timeoutDuration := timeoutDuration s |}.

Definition set_connected (b : bool) (s : RoboVac) : RoboVac :=
  {| api := api s; connected := b; statuses := statuses s;
     lastStatusUpdate := lastStatusUpdate s;
     maxStatusUpdateAge := maxStatusUpdateAge s;
     timeoutDuration := timeoutDuration s |}.

Definition set_statuses (r : option StatusResponse) (s : RoboVac) : RoboVac :=
  {| api := api s; connected := connected s; statuses := r;
     lastStatusUpdate := lastStatusUpdate s;
     maxStatusUpdateAge := maxStatusUpdateAge s;
     timeoutDuration := timeoutDuration s |}.

Definition set_lastStatusUpdate (t : option Z) (s : RoboVac) : RoboVac :=
  {| api := api s; connected := connected s; statuses := statuses s;
     lastStatusUpdate := t;
     maxStatusUpdateAge := maxStatusUpdateAge s;
     timeoutDuration := timeoutDuration s |}.

(** The constructor (lines 97-138).  [new TuyAPI] is the transport's own
    constructor: whether it accepts the options is the world's
    [tuyapi_rejects].  The five [api.on] handlers it registers are
    [on_event] below. *)
Definition RoboVac_new (config : Config) (timeout : Z) (w : World)
  : Outcome RoboVac :=
  if falsy (deviceId config) then
    Throw (JsErr "You must pass through deviceId")
  else
    let opts := {| opt_id := deviceId config; opt_key := localKey config;
                   opt_ip := ip config; opt_port := port config;
                   opt_version := "3.3";
                   opt_issueRefreshOnConnect := true |} in
    match tuyapi_rejects w opts with
    | Some e => Throw e
    | None =>
        Ok {| api := {| device_id := deviceId config;
                        device_key := localKey config;
                        device_ip := ip config;
                        device_port := port config |};
              connected := false;
              statuses := None;
              lastStatusUpdate := None;
              maxStatusUpdateAge := 1000 * (1 * 30);
              timeoutDuration := timeout |}
    end.

(** The handlers registered with [api.on] (lines 114-136). *)
Definition on_event (ev : ApiEvent) : M RoboVac unit :=
  match ev with
  | EvError _ => log_error "Robovac Error"
  | EvConnected =>
      modify (set_connected true);;
      log_debug "Connected!"
  | EvDisconnected =>
      modify (set_connected false);;
      log_debug "Disconnected!"
  | EvDpRefresh _ =>
      log_debug "DP_REFRESH data from device: ";;
      log_debug "Status Updated!"
  | EvData _ =>
      log_debug "Data from device:";;
      log_debug "Status Updated!"
  end.

Fixpoint dispatch (evs : list ApiEvent) : M RoboVac unit :=
  match evs with
  | [] => ret tt
  | ev :: rest => on_event ev;; dispatch rest
  end.

(** [await] on a transport request: the request is issued, the task is
    suspended, the events emitted meanwhile run their handlers, and the
    task resumes with the reply (or with its rejection). *)
Definition await_api (request : Event) : M RoboVac Reply :=
  fun s w =>
    let r := replies w (tick w) in
    match dispatch (emitted r) s (advance 0 (add_event request w)) with
    | (_, s', w') =>
        (match rejected r with Some e => Throw e | None => Ok r end, s', w')
    end.

Definition api_connect : M RoboVac unit := await_api ApiConnect;; ret tt.

Definition api_disconnect : M RoboVac unit := await_api ApiDisconnect;; ret tt.

Definition api_find (timeout : Z) : M RoboVac unit :=
  r <- await_api (ApiFind timeout);;
  s <- get_self;;
  modify (set_api {| device_id := Some (reply_id r);
                     device_key := device_key (api s);
                     device_ip := Some (reply_ip r);
                     device_port := device_port (api s) |}).

Definition api_get (schema : bool) : M RoboVac StatusResponse :=
  r <- await_api (ApiGet schema);;
  ret (reply_status r).

Definition api_set (multiple : bool) (data : gmap string DpValue)
  : M RoboVac unit :=
  await_api (ApiSet multiple data);; ret tt.

(** lines 140-145 *)
Definition connect : M RoboVac unit :=
  s <- get_self;;
  if negb (connected s) then
    log_debug "Connecting...";;
    api_connect
  else ret tt.

(** lines 147-150 *)
Definition disconnect : M RoboVac unit :=
  log_debug "Disconnecting...";;
  api_disconnect.

(** lines 152-164 *)
Definition doWork {A} (work : M RoboVac A) : M RoboVac A :=
  s <- get_self;;
  (if falsy (device_id (api s)) || falsy (device_ip (api s)) then
     log_debug "Looking for device...";;
     try_catch
       (api_find (timeoutDuration s);;
        log_debug "Found device")
       (fun err => log_debug "err.toString()")
   else ret tt);;
  connect;;
  work.

(** [now - this.lastStatusUpdate]: a [null] timestamp counts as 0. *)
Definition to_number (t : option Z) : Z := default 0 t.

(** lines 166-176.  The result is [None] when the method returns the
    [null] the field [statuses] starts with. *)
Definition getStatuses (force : bool) : M RoboVac (option StatusResponse) :=
  s <- get_self;;
  t <- date_now;;
  if force || (t - to_number (lastStatusUpdate s) >? maxStatusUpdateAge s) then
    doWork
      (r <- api_get true;;
       modify (set_statuses (Some r));;
       t' <- date_now;;
       modify (set_lastStatusUpdate (Some t'));;
       s' <- get_self;;
       ret (statuses s'))
  else ret (statuses s).

(** [statuses.dps[...]]: reading a property of [null] throws. *)
Definition dps_of {A} (st : option StatusResponse) (field : Dps -> A)
  : M RoboVac A :=
  match st with
  | Some r => ret (field (dps r))
  | None => throw (JsErr "TypeError: Cannot read properties of null")
  end.

Definition set (data : gmap string DpValue) : M RoboVac unit :=
  log_debug "Setting: ";;
  api_set true data.

Definition getCleanSpeed (force : bool) : M RoboVac string :=
  st <- getStatuses force;; dps_of st dp102.

Definition setCleanSpeed (cleanSpeed : string) : M RoboVac unit :=
  doWork (set {[ CLEAN_SPEED := VStr cleanSpeed ]}).

Definition getPlayPause (force : bool) : M RoboVac bool :=
  st <- getStatuses force;; dps_of st dp2.

Definition setPlayPause (state : bool) : M RoboVac unit :=
  doWork (set {[ PLAY_PAUSE := VBool state ]}).

Definition play : M RoboVac unit := setPlayPause true.

Definition pause : M RoboVac unit := setPlayPause true.

Definition getWorkMode (force : bool) : M RoboVac string :=
  st <- getStatuses force;; dps_of st dp5.

Definition setWorkMode (workMode : string) : M RoboVac unit :=
  doWork
    (log_debug "Setting WorkMode to";;
     set {[ WORK_MODE := VStr workMode ]}).

Definition startCleaning (force : bool) : M RoboVac unit :=
  _ <- getStatuses force;;
  log_debug "Starting Cleaning";;
  setWorkMode WorkMode.AUTO;;
  log_debug "Cleaning Started!".

Definition getWorkStatus (force : bool) : M RoboVac string :=
  st <- getStatuses force;; dps_of st dp15.

Definition setWorkStatus (workStatus : string) : M RoboVac unit :=
  doWork (set {[ WORK_STATUS := VStr workStatus ]}).

(** lines 246-258 *)
Definition goHome : M RoboVac unit :=
  workStatus <- getWorkStatus true;;
  if bool_decide (workStatus = WorkStatus.COMPLETED)
     || bool_decide (workStatus = WorkStatus.CHARGING)
  then log_debug "RoboVac is already Home"
  else doWork (set {[ GO_HOME := VBool true ]}).

Definition setFindRobot (state : bool) : M RoboVac unit :=
  doWork (set {[ FIND_ROBOT := VBool state ]}).

Definition getFindRobot (force : bool) : M RoboVac bool :=
  st <- getStatuses force;; dps_of st dp103.

Definition getBatteyLevel (force : bool) : M RoboVac Z :=
  st <- getStatuses force;; dps_of st dp104.

Definition getErrorCode (force : bool) : M RoboVac string :=
  st <- getStatuses force;; dps_of st dp106.

Definition formatStatus : M RoboVac unit :=
  s <- get_self;;
  _ <- dps_of (statuses s) dp2;;
  log_debug "-- Status Start --".

(** ** The accessory: [class EufyRoboVacAccessory] (index.ts) *)

Record AccessoryConfig := {
  cfg_name : option string;
  cfg_deviceId : option string;
  cfg_localKey : option string;
  cfg_ip : option string;
  cfg_useSwitchService : bool;
  cfg_hideFindButton : bool;
  cfg_hideErrorSensor : bool;
  cfg_disableBatteryLevel : bool
}.

Inductive Service :=
  | SwitchService (subtype : string)
  | FanService (subtype : string)
  | AccessoryInformation
  | BatteryService
  | MotionSensorService.

Record Accessory := {
  name : string;
  roboVac : option RoboVac;
  config : Config;
  hideFindButton : bool;
  hideErrorSensor : bool;
  disableBatteryLevel : bool;
  services : list Service
}.

Definition set_roboVac (rv : option RoboVac) (a : Accessory) : Accessory :=
  {| name := name a; roboVac := rv; config := config a;
     hideFindButton := hideFindButton a;
     hideErrorSensor := hideErrorSensor a;
     disableBatteryLevel := disableBatteryLevel a;
     services := services a |}.

(** A completion callback: the one HomeKit passed in, or the empty arrow
    function [() => { }] of the retry in [getCleanState]. *)
Inductive Callback := HapCallback | NoopCallback.

Definition invoke_get (callback : Callback) (err : ErrArg)
    (value : CharacteristicValue) : M Accessory unit :=
  match callback with
  | HapCallback => emit (GetCallback err value)
  | NoopCallback => ret tt
  end.

Definition invoke_set (callback : Callback) : M Accessory unit :=
  match callback with
  | HapCallback => emit SetCallback
  | NoopCallback => ret tt
  end.

(** [this.roboVac.method(...)]: runs the method on the session the field
    holds; the field is [undefined] until a [setup] got past the
    constructor of [RoboVac]. *)
Definition on_roboVac {A} (m : M RoboVac A) : M Accessory A :=
  fun a w =>
    match roboVac a with
    | Some rv =>
        match m rv w with
        | (r, rv', w') => (r, set_roboVac (Some rv') a, w')
        end
    | None =>
        (Throw (JsErr "TypeError: Cannot read properties of undefined"), a, w)
    end.

(** A call that is not awaited: its rejection does not reach the caller. *)
Definition detached {S A} (m : M S A) : M S unit :=
  fun s w => match m s w with (_, s', w') => (Ok tt, s', w') end.

(** [function sleep(ms)] (lines 26-28): a timer; the events the transport
    emits while it runs reach the handlers of the current session. *)
Definition sleep (ms : Z) : M Accessory unit :=
  fun a w =>
    let r := replies w (tick w) in
    let w1 := advance ms (add_event (Sleep ms) w) in
    match roboVac a with
    | Some rv =>
        match dispatch (emitted r) rv w1 with
        | (_, rv', w') => (Ok tt, set_roboVac (Some rv') a, w')
        end
    | None => (Ok tt, a, w1)
    end.

(** lines 111-114 *)
Definition setup : M Accessory (option StatusResponse) :=
  a <- get_self;;
  rv <- (fun a w => (RoboVac_new (config a) 2 w, a, w));;
  modify (set_roboVac (Some rv));;
  on_roboVac (getStatuses false).

(** The constructor (lines 46-109); [this.setup()] is not awaited. *)
Definition Accessory_new (c : AccessoryConfig) (w : World)
  : Accessory * World :=
  let nm := if falsy (cfg_name c) then "Eufy RoboVac"
            else default "" (cfg_name c) in
  let a := {| name := nm;
              roboVac := None;
              config := {| deviceId := cfg_deviceId c;
                           localKey := cfg_localKey c;
                           ip := cfg_ip c;
                           port := 6668 |};
              hideFindButton := cfg_hideFindButton c;
              hideErrorSensor := cfg_hideErrorSensor c;
              disableBatteryLevel := cfg_disableBatteryLevel c;
              services :=
                [if cfg_useSwitchService c then SwitchService "vacuum"
                 else FanService "vacuum"; AccessoryInformation]
                ++ (if cfg_disableBatteryLevel c then [] else [BatteryService])
                ++ (if cfg_hideFindButton c then [] else [SwitchService "find"])
                ++ (if cfg_hideErrorSensor c then []
                    else [MotionSensorService]) |} in
  match (detached setup;; log_info "finished initializing!") a w with
  | (_, a', w') => (a', w')
  end.

(** lines 116-128.  The retry [this.getCleanState(() => { })] is a call of
    the method itself that nobody awaits; [retries] bounds how many of
    these nested calls are followed (at 0 the nested call is left out). *)
Fixpoint getCleanState (retries : nat) (callback : Callback)
  : M Accessory unit :=
  log_debug "getCleanState for";;
  try_catch
    (cleanState <- on_roboVac (getPlayPause true);;
     log_debug "getCleanState returned";;
     invoke_get callback ErrUndefined (CvBool cleanState))
    (fun e =>
       _ <- setup;;
       match retries with
       | O => ret tt
       | S n => detached (getCleanState n NoopCallback)
       end).

(** lines 130-138 *)
Definition setCleanState (state : bool) (callback : Callback)
  : M Accessory unit :=
  log_debug "setCleanState";;
  on_roboVac (setPlayPause state);;
  (if negb state then
     sleep 2000;;
     on_roboVac goHome
   else ret tt);;
  invoke_set callback.

(** lines 140-149 *)
Definition getBatteryLevel (callback : Callback) : M Accessory unit :=
  log_debug "getBatteryLevel for";;
  try_catch
    (level <- on_roboVac (getBatteyLevel false);;
     invoke_get callback ErrNull (CvNum level))
    (fun e =>
       log_debug "getBatteryLevel error;";;
       invoke_get callback ErrNull (CvNum 0)).

(** lines 151-160 *)
Definition getChargingState (callback : Callback) : M Accessory unit :=
  log_debug "getChargingState for";;
  try_catch
    (workStatus <- on_roboVac (getWorkStatus false);;
     invoke_get callback ErrNull
       (CvChargingState
          (if bool_decide (workStatus = WorkStatus.CHARGING)
           then CHARGING else NOT_CHARGEABLE)))
    (fun e =>
       log_debug "getChargingState error;";;
       invoke_get callback ErrNull (CvBool false)).

(** lines 162-169 *)
Definition getStatusLowBattery (callback : Callback) : M Accessory unit :=
  try_catch
    (level <- on_roboVac (getBatteyLevel false);;
     invoke_get callback ErrNull
       (CvStatusLowBattery
          (if level <? 30 then BATTERY_LEVEL_LOW else BATTERY_LEVEL_NORMAL)))
    (fun e => invoke_get callback ErrNull (CvBool false)).

(** lines 171-179 *)
Definition getFindRobot_handler (callback : Callback) : M Accessory unit :=
  log_debug "getFindRobot for";;
  try_catch
    (found <- on_roboVac (getFindRobot false);;
     invoke_get callback ErrNull (CvBool found))
    (fun e => invoke_get callback ErrNull (CvBool false)).

(** lines 181-185 *)
Definition setFindRobot_handler (state : bool) (callback : Callback)
  : M Accessory unit :=
  log_debug "setFindRobot";;
  on_roboVac (setFindRobot state);;
  invoke_set callback.

(** lines 187-193 *)
Definition getErrorStatus (callback : Callback) : M Accessory unit :=
  try_catch
    (code <- on_roboVac (getErrorCode false);;
     invoke_get callback ErrNull
       (CvBool (if bool_decide (code = "no_error") then false else true)))
    (fun e => invoke_get callback ErrNull (CvBool false)).

(** lines 195-197 *)
Definition identify : M Accessory unit := log_info "Identify!".

Definition getServices (a : Accessory) : list Service := services a.

(** * Vocabulary of the specification *)

(** A relation between the states before and after a run that every run
    of [m] establishes. *)
Definition preserves {S A} (R : S * World -> S * World -> Prop) (m : M S A)
  : Prop :=
  forall s w out s' w', m s w = (out, s', w') -> R (s, w) (s', w').

(** ** Classifying the events of a trace *)

Definition is_prelude (e : Event) : bool :=
  match e with ApiFind _ | ApiConnect => true | _ => false end.

Definition is_read (e : Event) : bool :=
  match e with ApiGet _ => true | _ => false end.

Definition is_write (e : Event) : bool :=
  match e with ApiSet _ _ => true | _ => false end.

Definition is_callback (e : Event) : bool :=
  match e with GetCallback _ _ | SetCallback => true | _ => false end.

Definition is_api (e : Event) : bool :=
  match e with
  | ApiFind _ | ApiConnect | ApiDisconnect | ApiGet _ | ApiSet _ _ => true
  | _ => false
  end.

(** The events a run from [w] to [w'] added. *)
Definition events_since (w w' : World) : list Event :=
  drop (length (trace w)) (trace w').

Definition reads (evs : list Event) : list Event := List.filter is_read evs.
Definition writes (evs : list Event) : list Event := List.filter is_write evs.
Definition callbacks (evs : list Event) : list Event :=
  List.filter is_callback evs.

(** The snapshot and its capture time. *)
Definition cache (s : RoboVac) : option StatusResponse * option Z :=
  (statuses s, lastStatusUpdate s).

(** The run only appends events that satisfy [P], and leaves the oracle
    alone. *)
Definition extends_with (P : Event -> bool) (w w' : World) : Prop :=
  replies w' = replies w /\ tuyapi_rejects w' = tuyapi_rejects w /\
  (tick w <= tick w')%nat /\
  exists evs, trace w' = trace w ++ evs /\ forallb P evs = true.

Definition Ext {S} (P : Event -> bool) : S * World -> S * World -> Prop :=
  fun x y => extends_with P (snd x) (snd y).

(** The run keeps the cached snapshot, its capture time and the freshness
    window. *)
Definition KeepsCache : RoboVac * World -> RoboVac * World -> Prop :=
  fun x y => cache (fst y) = cache (fst x) /\
             maxStatusUpdateAge (fst y) = maxStatusUpdateAge (fst x).

Definition only_logs (w w' : World) : Prop :=
  replies w' = replies w /\ tuyapi_rejects w' = tuyapi_rejects w /\
  tick w' = tick w /\ now w' = now w /\ trace w' = trace w.

Definition Quiet {S} : S * World -> S * World -> Prop :=
  fun x y => only_logs (snd x) (snd y).

Definition ButConnected : RoboVac * World -> RoboVac * World -> Prop :=
  fun x y => api (fst y) = api (fst x) /\
             timeoutDuration (fst y) = timeoutDuration (fst x).

(** The arrow function [getStatuses] hands to [doWork] (lines 168-172). *)
Definition refresh : M RoboVac (option StatusResponse) :=
  r <- api_get true;;
  modify (set_statuses (Some r));;
  t' <- date_now;;
  modify (set_lastStatusUpdate (Some t'));;
  s' <- get_self;;
  ret (statuses s').

(** The test of line 167. *)
Definition must_refresh (force : bool) (s : RoboVac) (w : World) : bool :=
  force || (now w - to_number (lastStatusUpdate s) >? maxStatusUpdateAge s).

Definition is_query (e : Event) : bool := is_prelude e || is_read e.

Definition not_callback (e : Event) : bool := negb (is_callback e).

(** The public methods of the session ([doWork] apart, which runs a
    closure of its caller). *)
Inductive Method :=
  | m_connect
  | m_disconnect
  | m_getStatuses (force : bool)
  | m_getCleanSpeed (force : bool)
  | m_setCleanSpeed (cleanSpeed : string)
  | m_getPlayPause (force : bool)
  | m_setPlayPause (state : bool)
  | m_play
  | m_pause
  | m_getWorkMode (force : bool)
  | m_setWorkMode (workMode : string)
  | m_startCleaning (force : bool)
  | m_getWorkStatus (force : bool)
  | m_setWorkStatus (workStatus : string)
  | m_goHome
  | m_setFindRobot (state : bool)
  | m_getFindRobot (force : bool)
  | m_getBatteyLevel (force : bool)
  | m_getErrorCode (force : bool)
  | m_set (data : gmap string DpValue)
  | m_formatStatus.

Definition discard {S A} (m : M S A) : M S unit := m;; ret tt.

Definition call (m : Method) : M RoboVac unit :=
  match m with
  | m_connect => connect
  | m_disconnect => disconnect
  | m_getStatuses force => discard (getStatuses force)
  | m_getCleanSpeed force => discard (getCleanSpeed force)
  | m_setCleanSpeed v => setCleanSpeed v
  | m_getPlayPause force => discard (getPlayPause force)
  | m_setPlayPause state => setPlayPause state
  | m_play => play
  | m_pause => pause
  | m_getWorkMode force => discard (getWorkMode force)
  | m_setWorkMode v => setWorkMode v
  | m_startCleaning force => startCleaning force
  | m_getWorkStatus force => discard (getWorkStatus force)
  | m_setWorkStatus v => setWorkStatus v
  | m_goHome => goHome
  | m_setFindRobot state => setFindRobot state
  | m_getFindRobot force => discard (getFindRobot force)
  | m_getBatteyLevel force => discard (getBatteyLevel force)
  | m_getErrorCode force => discard (getErrorCode force)
  | m_set data => set data
  | m_formatStatus => formatStatus
  end.

(** The methods whose body goes through [getStatuses]. *)
Definition queries (m : Method) : bool :=
  match m with
  | m_getStatuses _ | m_getCleanSpeed _ | m_getPlayPause _ | m_getWorkMode _
  | m_startCleaning _ | m_getWorkStatus _ | m_goHome | m_getFindRobot _
  | m_getBatteyLevel _ | m_getErrorCode _ => true
  | _ => false
  end.

(** Between [x] and [y] a full-schema read was issued and resolved, and
    the session's snapshot is the reply to it. *)
Definition read_completed (x y : RoboVac * World) : Prop :=
  exists k, (tick (snd x) <= k < tick (snd y))%nat /\
    rejected (replies (snd x) k) = None /\
    In (ApiGet true) (events_since (snd x) (snd y)) /\
    statuses (fst y) = Some (reply_status (replies (snd x) k)) /\
    exists t, lastStatusUpdate (fst y) = Some t.

Definition CacheEffect : RoboVac * World -> RoboVac * World -> Prop :=
  fun x y => extends_with is_api (snd x) (snd y) /\
             (cache (fst y) = cache (fst x) \/ read_completed x y).

(** The transport accepts every request. *)
Definition accepting (w : World) : Prop :=
  forall k, rejected (replies w k) = None.

(** ** The constructor of the transport *)

(** [isValidString] of the tuyapi library: a string, and not the empty
    one. *)
Definition isValidString (o : option string) : bool := negb (falsy o).

(** The argument checks that the constructor of the tuyapi library (an
    external package, not part of the repository) runs on its options
    before it does anything else: it throws a [TypeError] when both the id
    and the address are missing, and when the key is missing or is not 16
    characters long.  A world whose [tuyapi_rejects] is this function has
    the library's constructor. *)
Definition TuyAPI_check (opts : ApiOptions) : option JsError :=
  if negb (isValidString (opt_id opts) || isValidString (opt_ip opts)) then
    Some (JsErr "TypeError: ID and IP are missing from device.")
  else if negb (isValidString (opt_key opts))
          || negb (String.length (default "" (opt_key opts)) =? 16)%nat then
    Some (JsErr "TypeError: Key is missing or incorrect.")
  else None.

(** The transport's constructor refuses options without a key. *)
Definition rejects_missing_key (w : World) : Prop :=
  forall opts, falsy (opt_key opts) = true -> tuyapi_rejects w opts <> None.

(** A world whose transport has the library's constructor. *)
Definition library_world (r : nat -> Reply) (t : Z) : World :=
  {| replies := r; tuyapi_rejects := TuyAPI_check; tick := 0%nat;
     now := t; trace := []; logs := [] |}.

(** ** Sample data for the examples *)

Module Sample.
Definition dps0 (workStatus : string) (battery : Z) : Dps :=
  {| dp1 := false; dp2 := true; dp3 := "forward";
     dp5 := WorkMode.AUTO; dp15 := workStatus; dp101 := false;
     dp102 := CleanSpeed.STANDARD; dp103 := false; dp104 := battery;
     dp106 := ErrorCode.NO_ERROR |}.

Definition status (workStatus : string) (battery : Z) : StatusResponse :=
  {| devId := "abc123"; dps := dps0 workStatus battery |}.

(** A transport that answers every request after 40 ms with the given
    snapshot and reports the connection as up. *)
Definition answering (st : StatusResponse) : nat -> Reply :=
  fun _ => {| elapsed := 40; emitted := [EvConnected]; rejected := None;
              reply_status := st; reply_id := "abc123";
              reply_ip := "192.168.1.20" |}.

(** A transport that rejects every request. *)
Definition unreachable : nat -> Reply :=
  fun _ => {| elapsed := 2000; emitted := [];
              rejected := Some (JsErr "connection timed out");
              reply_status := status WorkStatus.STAND_BY 0;
              reply_id := ""; reply_ip := "" |}.

Definition world (r : nat -> Reply) (t : Z) : World :=
  {| replies := r; tuyapi_rejects := fun _ => None; tick := 0%nat;
     now := t; trace := []; logs := [] |}.

Definition config0 : Config :=
  {| deviceId := Some "abc123"; localKey := Some "0123456789abcdef";
     ip := Some "192.168.1.20"; port := 6668 |}.

(** A session whose snapshot [st] was captured at [t]. *)
Definition session (connected0 : bool) (st : StatusResponse) (t : Z)
  : RoboVac :=
  {| api := {| device_id := deviceId config0;
               device_key := localKey config0;
               device_ip := ip config0; device_port := 6668 |};
     connected := connected0;
     statuses := Some st;
     lastStatusUpdate := Some t;
     maxStatusUpdateAge := 30000;
     timeoutDuration := 2 |}.

Definition t0 : Z := 1700000000000.

Definition accessory (rv : option RoboVac) : Accessory :=
  {| name := "Eufy RoboVac"; roboVac := rv; config := config0;
     hideFindButton := false; hideErrorSensor := false;
     disableBatteryLevel := false;
     services := [FanService "vacuum"; AccessoryInformation;
                  BatteryService; SwitchService "find";
                  MotionSensorService] |}.

(** A stop request on a running, reachable robot. *)
Definition stop_accessory : Accessory :=
  accessory (Some (session false (status "Running" 80) t0)).

Definition stop_world : World := world (answering (status "Running" 80)) t0.

Definition stop_request : Outcome unit * Accessory * World :=
  setCleanState false HapCallback stop_accessory stop_world.

(** A forced query on a reachable robot. *)
Definition forced_query : Outcome unit * RoboVac * World :=
  call (m_getStatuses true) (session false (status "Running" 80) t0)
    (world (answering (status "Charging" 100)) (t0 + 1000)).

End Sample.

(** ** Vocabulary of the further properties *)

(** The session knows both the id and the address of its device, so that
    [doWork] skips the discovery step. *)
Definition configured (s : RoboVac) : bool :=
  negb (falsy (device_id (api s)) || falsy (device_ip (api s))).

Definition no_find (e : Event) : bool :=
  match e with ApiFind _ => false | _ => true end.

(** A configured session keeps its [api.device] and issues no discovery
    request. *)
Definition KeepsApi : RoboVac * World -> RoboVac * World -> Prop :=
  fun x y => configured (fst x) = true ->
             api (fst y) = api (fst x) /\
             extends_with no_find (snd x) (snd y).

(** The run keeps the freshness window, the discovery timeout, and the key
    and port of the device. *)
Definition KeepsSettings : RoboVac * World -> RoboVac * World -> Prop :=
  fun x y =>
    maxStatusUpdateAge (fst y) = maxStatusUpdateAge (fst x) /\
    timeoutDuration (fst y) = timeoutDuration (fst x) /\
    device_key (api (fst y)) = device_key (api (fst x)) /\
    device_port (api (fst y)) = device_port (api (fst x)).

(** The run changes no field of the accessory but [roboVac]. *)
Definition ButRoboVac : Accessory * World -> Accessory * World -> Prop :=
  fun x y =>
    name (fst y) = name (fst x) /\ config (fst y) = config (fst x) /\
    hideFindButton (fst y) = hideFindButton (fst x) /\
    hideErrorSensor (fst y) = hideErrorSensor (fst x) /\
    disableBatteryLevel (fst y) = disableBatteryLevel (fst x) /\
    services (fst y) = services (fst x).

(** The events that report the state of the connection. *)
Definition is_lifecycle (ev : ApiEvent) : bool :=
  match ev with EvConnected | EvDisconnected => true | _ => false end.

(** ** Sample runs for the further properties *)

Definition sample_session : RoboVac :=
  Sample.session false (Sample.status "Running" 80) Sample.t0.

Definition sample_down : World :=
  Sample.world Sample.unreachable (Sample.t0 + 1000).

Definition sample_up : World :=
  Sample.world (Sample.answering (Sample.status "Charging" 100))
    (Sample.t0 + 1000).

Definition sample_fresh : RoboVac :=
  {| api := {| device_id := Some "abc123";
               device_key := Some "0123456789abcdef";
               device_ip := Some "192.168.1.20"; device_port := 6668 |};
     connected := false; statuses := None; lastStatusUpdate := None;
     maxStatusUpdateAge := 30000; timeoutDuration := 2 |}.

(** An accessory whose configuration lacks the device id. *)
Definition sample_unconfigured : Accessory :=
  {| name := "Eufy RoboVac"; roboVac := None;
     config := {| deviceId := None; localKey := None; ip := None;
                  port := 6668 |};
     hideFindButton := false; hideErrorSensor := false;
     disableBatteryLevel := false;
     services := [FanService "vacuum"; AccessoryInformation;
                  BatteryService; SwitchService "find";
                  MotionSensorService] |}.

Definition failed_query : Outcome (option StatusResponse) * RoboVac * World :=
  getStatuses true sample_session sample_down.

Definition completed_query
  : Outcome (option StatusResponse) * RoboVac * World :=
  getStatuses true sample_session sample_up.

Definition find_write : Outcome unit * RoboVac * World :=
  call (m_setFindRobot true) sample_session sample_up.

Definition clean_state_read : Outcome bool * Accessory * World :=
  on_roboVac (getPlayPause true) (Sample.accessory (Some sample_session))
    (add_log (LogDebug "getCleanState for") sample_up).

(** * Reasoning about runs *)

(** ** Relations every step of a run preserves *)

Section Preserves.
Context {S : Type} (R : S * World -> S * World -> Prop) `{!PreOrder R}.

Lemma preserves_ret {A} (a : A) : preserves R (ret a).
Proof. intros s w out s' w' [= <- <- <-]. reflexivity. Qed.

Lemma preserves_throw {A} e : preserves R (@throw S A e).
Proof. intros s w out s' w' [= <- <- <-]. reflexivity. Qed.

Lemma preserves_get_self : preserves R (@get_self S).
Proof. intros s w out s' w' [= <- <- <-]. reflexivity. Qed.

Lemma preserves_date_now : preserves R (@date_now S).
Proof. intros s w out s' w' [= <- <- <-]. reflexivity. Qed.

Lemma preserves_bind {A B} (m : M S A) (k : A -> M S B) :
  preserves R m -> (forall a, preserves R (k a)) -> preserves R (bind m k).
Proof.
  intros Hm Hk s w out s' w'. unfold bind.
  destruct (m s w) as [[[a|e] s1] w1] eqn:E; intros H.
  - etransitivity; [eapply Hm, E | eapply Hk, H].
  - injection H as <- <- <-. eapply Hm, E.
Qed.

Lemma preserves_try_catch {A} (m : M S A) (h : JsError -> M S A) :
  preserves R m -> (forall e, preserves R (h e)) -> preserves R (try_catch m h).
Proof.
  intros Hm Hh s w out s' w'. unfold try_catch.
  destruct (m s w) as [[[a|e] s1] w1] eqn:E; intros H.
  - injection H as <- <- <-. eapply Hm, E.
  - etransitivity; [eapply Hm, E | eapply Hh, H].
Qed.

Lemma preserves_detached {A} (m : M S A) :
  preserves R m -> preserves R (detached m).
Proof.
  intros Hm s w out s' w'. unfold detached.
  destruct (m s w) as [[r s1] w1] eqn:E. intros [= <- <- <-].
  eapply Hm, E.
Qed.
End Preserves.

Lemma extends_refl P w : extends_with P w w.
Proof.
  unfold extends_with. repeat split; auto.
  exists []. by rewrite app_nil_r.
Qed.

Lemma extends_trans P w1 w2 w3 :
  extends_with P w1 w2 -> extends_with P w2 w3 -> extends_with P w1 w3.
Proof.
  intros (Hr & Hc & Ht & evs & He & HP) (Hr' & Hc' & Ht' & evs' & He' & HP').
  unfold extends_with. repeat split; try congruence; try lia.
  exists (evs ++ evs'). rewrite He', He, <- app_assoc. split; auto.
  rewrite forallb_app, HP, HP'. reflexivity.
Qed.

#[global] Instance Ext_preorder {S} P : PreOrder (@Ext S P).
Proof.
  split.
  - intros [s w]. apply extends_refl.
  - intros [s1 w1] [s2 w2] [s3 w3]. apply extends_trans.
Qed.

#[global] Instance KeepsCache_preorder : PreOrder KeepsCache.
Proof.
  split.
  - intros [s w]. split; reflexivity.
  - intros [s1 w1] [s2 w2] [s3 w3] [H1 H1'] [H2 H2']. split; simpl in *; congruence.
Qed.

Create HintDb preserves.

#[global] Hint Resolve preserves_ret preserves_throw preserves_get_self
  preserves_date_now preserves_detached : preserves.

Ltac pres_step :=
  match goal with
  | |- preserves _ (bind _ _) => apply preserves_bind; [ apply _ | | intros ? ]
  | |- preserves _ (try_catch _ _) =>
      apply preserves_try_catch; [ apply _ | | intros ? ]
  | |- preserves _ (if ?b then _ else _) => destruct b
  | |- preserves _ (match ?x with _ => _ end) => destruct x
  | |- preserves _ _ => solve [ eauto with preserves typeclass_instances ]
  end.

Ltac pres := repeat pres_step.

(** *** Appending events *)

Lemma Ext_with_world {S} P (f : World -> World) :
  (forall w, extends_with P w (f w)) -> preserves (@Ext S P) (with_world f).
Proof. intros Hf s w out s' w' [= <- <- <-]. apply Hf. Qed.

Lemma extends_add_log P l w : extends_with P w (add_log l w).
Proof.
  unfold extends_with; simpl. repeat split; auto.
  exists []. by rewrite app_nil_r.
Qed.

Lemma extends_add_event P e w : P e = true -> extends_with P w (add_event e w).
Proof.
  intros HP. unfold extends_with; simpl. repeat split; auto.
  exists [e]. simpl. by rewrite HP.
Qed.

Lemma extends_advance P extra w : extends_with P w (advance extra w).
Proof.
  unfold extends_with; simpl. repeat split; auto.
  exists []. by rewrite app_nil_r.
Qed.

Lemma Ext_log_debug {S} P msg : preserves (@Ext S P) (log_debug msg).
Proof. apply Ext_with_world, extends_add_log. Qed.

Lemma Ext_log_info {S} P msg : preserves (@Ext S P) (log_info msg).
Proof. apply Ext_with_world, extends_add_log. Qed.

Lemma Ext_log_error {S} P msg : preserves (@Ext S P) (log_error msg).
Proof. apply Ext_with_world, extends_add_log. Qed.

Lemma Ext_emit {S} P e : P e = true -> preserves (@Ext S P) (emit e).
Proof. intros HP. apply Ext_with_world. intros w. by apply extends_add_event. Qed.

Lemma Ext_modify {S} P (f : S -> S) : preserves (Ext P) (modify f).
Proof. intros s w out s' w' [= <- <- <-]. apply extends_refl. Qed.

#[global] Hint Resolve Ext_log_debug Ext_log_info Ext_log_error Ext_emit
  Ext_modify : preserves.

Lemma Ext_on_event P ev : preserves (Ext P) (on_event ev).
Proof. destruct ev; simpl; pres. Qed.

Lemma Ext_dispatch P evs : preserves (Ext P) (dispatch evs).
Proof.
  induction evs as [|ev evs IH]; simpl; pres. apply Ext_on_event.
Qed.

Lemma Ext_await_api P request :
  P request = true -> preserves (Ext P) (await_api request).
Proof.
  intros HP s w out s' w'. unfold await_api.
  destruct (dispatch _ s _) as [[r s1] w1] eqn:E. intros [= <- <- <-].
  pose proof (Ext_dispatch P _ _ _ _ _ _ E) as E'. unfold Ext in *; simpl in *.
  eapply extends_trans; [ | exact E' ].
  eapply extends_trans; [ by apply extends_add_event | apply extends_advance ].
Qed.

(** *** Keeping the cache *)

Lemma KeepsCache_with_world f : preserves KeepsCache (with_world f).
Proof. intros s w out s' w' [= <- <- <-]. split; reflexivity. Qed.

Lemma KeepsCache_log_debug msg : preserves KeepsCache (log_debug msg).
Proof. apply KeepsCache_with_world. Qed.

Lemma KeepsCache_log_error msg : preserves KeepsCache (log_error msg).
Proof. apply KeepsCache_with_world. Qed.

Lemma KeepsCache_set_connected b : preserves KeepsCache (modify (set_connected b)).
Proof. intros s w out s' w' [= <- <- <-]. split; reflexivity. Qed.

Lemma KeepsCache_set_api a : preserves KeepsCache (modify (set_api a)).
Proof. intros s w out s' w' [= <- <- <-]. split; reflexivity. Qed.

#[global] Hint Resolve KeepsCache_log_debug KeepsCache_log_error
  KeepsCache_set_connected KeepsCache_set_api : preserves.

Lemma KeepsCache_on_event ev : preserves KeepsCache (on_event ev).
Proof. destruct ev; simpl; pres. Qed.

Lemma KeepsCache_dispatch evs : preserves KeepsCache (dispatch evs).
Proof.
  induction evs as [|ev evs IH]; simpl; pres. apply KeepsCache_on_event.
Qed.

Lemma KeepsCache_await_api request : preserves KeepsCache (await_api request).
Proof.
  intros s w out s' w'. unfold await_api.
  destruct (dispatch _ s _) as [[r s1] w1] eqn:E. intros [= <- <- <-].
  exact (KeepsCache_dispatch _ _ _ _ _ _ E).
Qed.

#[global] Hint Resolve KeepsCache_await_api : preserves.

(** *** Touching nothing but the log *)

#[global] Instance Quiet_preorder {S} : PreOrder (@Quiet S).
Proof.
  split.
  - intros [s w]. unfold Quiet, only_logs; simpl. auto.
  - intros [s1 w1] [s2 w2] [s3 w3]. unfold Quiet, only_logs; simpl.
    intros (? & ? & ? & ? & ?) (? & ? & ? & ? & ?).
    repeat split; congruence.
Qed.

Lemma Quiet_log_debug {S} msg : preserves (@Quiet S) (log_debug msg).
Proof. intros s w out s' w' [= <- <- <-]. unfold Quiet, only_logs; simpl. auto. Qed.

Lemma Quiet_log_error {S} msg : preserves (@Quiet S) (log_error msg).
Proof. intros s w out s' w' [= <- <- <-]. unfold Quiet, only_logs; simpl. auto. Qed.

Lemma Quiet_modify {S} (f : S -> S) : preserves Quiet (modify f).
Proof. intros s w out s' w' [= <- <- <-]. unfold Quiet, only_logs; simpl. auto. Qed.

#[global] Hint Resolve Quiet_log_debug Quiet_log_error Quiet_modify : preserves.

Lemma Quiet_on_event ev : preserves Quiet (on_event ev).
Proof. destruct ev; simpl; pres. Qed.

Lemma Quiet_dispatch evs : preserves Quiet (dispatch evs).
Proof.
  induction evs as [|ev evs IH]; simpl; pres. apply Quiet_on_event.
Qed.

(** Handlers never throw. *)
Lemma dispatch_ok evs s w : (dispatch evs s w).1.1 = Ok tt.
Proof.
  revert s w. induction evs as [|ev evs IH]; intros s w; [reflexivity|].
  simpl. unfold bind at 1.
  destruct (on_event ev s w) as [[[[]|e] s1] w1] eqn:E.
  - apply IH.
  - destruct ev; simpl in E; unfold bind, modify, log_debug, log_error,
      with_world in E; simpl in E; discriminate.
Qed.

(** *** Touching no field of the session but [connected] *)

#[global] Instance ButConnected_preorder : PreOrder ButConnected.
Proof.
  split.
  - intros [s w]. split; reflexivity.
  - intros [s1 w1] [s2 w2] [s3 w3] [? ?] [? ?]. split; simpl in *; congruence.
Qed.

Lemma ButConnected_with_world f : preserves ButConnected (with_world f).
Proof. intros s w out s' w' [= <- <- <-]. split; reflexivity. Qed.

Lemma ButConnected_log_debug msg : preserves ButConnected (log_debug msg).
Proof. apply ButConnected_with_world. Qed.

Lemma ButConnected_log_error msg : preserves ButConnected (log_error msg).
Proof. apply ButConnected_with_world. Qed.

Lemma ButConnected_set_connected b :
  preserves ButConnected (modify (set_connected b)).
Proof. intros s w out s' w' [= <- <- <-]. split; reflexivity. Qed.

#[global] Hint Resolve ButConnected_log_debug ButConnected_log_error
  ButConnected_set_connected : preserves.

Lemma ButConnected_on_event ev : preserves ButConnected (on_event ev).
Proof. destruct ev; simpl; pres. Qed.

Lemma ButConnected_dispatch evs : preserves ButConnected (dispatch evs).
Proof.
  induction evs as [|ev evs IH]; simpl; pres. apply ButConnected_on_event.
Qed.

(** ** What one transport request does *)

Lemma await_api_spec request s w out s' w' :
  await_api request s w = (out, s', w') ->
  out = match rejected (replies w (tick w)) with
        | Some e => Throw e
        | None => Ok (replies w (tick w))
        end /\
  KeepsCache (s, w) (s', w') /\
  ButConnected (s, w) (s', w') /\
  trace w' = trace w ++ [request] /\
  tick w' = S (tick w) /\
  now w' = now w + elapsed (replies w (tick w)) /\
  replies w' = replies w /\ tuyapi_rejects w' = tuyapi_rejects w.
Proof.
  unfold await_api.
  destruct (dispatch _ s _) as [[r s1] w1] eqn:E. intros [= <- <- <-].
  pose proof (KeepsCache_dispatch _ _ _ _ _ _ E) as HK.
  pose proof (ButConnected_dispatch _ _ _ _ _ _ E) as HB.
  pose proof (Quiet_dispatch _ _ _ _ _ _ E) as (Hr & Hc & Ht & Hn & Htr).
  simpl in *. repeat split; try apply HK; try apply HB; try congruence.
  rewrite Hn. simpl. lia.
Qed.

#[global] Hint Resolve Ext_await_api : preserves.

(** ** The connection step of [doWork] *)

Section Prelude.
Variable P : Event -> bool.
Hypothesis P_find : forall t, P (ApiFind t) = true.
Hypothesis P_connect : P ApiConnect = true.

Lemma Ext_api_find t : preserves (Ext P) (api_find t).
Proof. unfold api_find. pres. Qed.

Lemma Ext_connect : preserves (Ext P) connect.
Proof. unfold connect, api_connect. pres. Qed.

Lemma Ext_doWork {A} (work : M RoboVac A) :
  preserves (Ext P) work -> preserves (Ext P) (doWork work).
Proof.
  intros Hw. unfold doWork. pres; auto using Ext_api_find, Ext_connect.
Qed.
End Prelude.

Lemma KeepsCache_api_find t : preserves KeepsCache (api_find t).
Proof. unfold api_find. pres. Qed.

Lemma KeepsCache_connect : preserves KeepsCache connect.
Proof. unfold connect, api_connect. pres. Qed.

Lemma KeepsCache_doWork {A} (work : M RoboVac A) :
  preserves KeepsCache work -> preserves KeepsCache (doWork work).
Proof.
  intros Hw. unfold doWork.
  pres; auto using KeepsCache_api_find, KeepsCache_connect.
Qed.

Lemma bind3_split {S A B C D} (g : M S A) (x : A -> M S B) (c : M S C)
    (work : M S D) s w :
  (a <- g;; x a;; c;; work) s w =
  match (a <- g;; x a;; c;; ret tt) s w with
  | (Ok _, s1, w1) => work s1 w1
  | (Throw e, s1, w1) => (Throw e, s1, w1)
  end.
Proof.
  unfold bind, ret.
  destruct (g s w) as [[[a|e] s1] w1]; [|reflexivity].
  destruct (x a s1 w1) as [[[b|e] s2] w2]; [|reflexivity].
  destruct (c s2 w2) as [[[c'|e] s3] w3]; reflexivity.
Qed.

(** [doWork] is its connection step followed by the work. *)
Lemma doWork_split {A} (work : M RoboVac A) s w :
  doWork work s w =
  match doWork (ret tt) s w with
  | (Ok _, s1, w1) => work s1 w1
  | (Throw e, s1, w1) => (Throw e, s1, w1)
  end.
Proof. unfold doWork. apply bind3_split. Qed.

(** What the connection step can do: requests of the connection kind
    only, and nothing to the cache. *)
Lemma doWork_prelude s w out s1 w1 :
  doWork (ret tt) s w = (out, s1, w1) ->
  cache s1 = cache s /\
  maxStatusUpdateAge s1 = maxStatusUpdateAge s /\
  extends_with is_prelude w w1.
Proof.
  intros H.
  destruct (KeepsCache_doWork (ret tt) (preserves_ret _ tt) _ _ _ _ _ H)
    as [Hc Hm].
  pose proof (Ext_doWork is_prelude (fun _ => eq_refl) eq_refl (ret tt)
                (preserves_ret _ tt) _ _ _ _ _ H) as HE.
  auto.
Qed.

(** ** The status query *)

Lemma getStatuses_unfold force s w :
  getStatuses force s w =
  if must_refresh force s w then doWork refresh s w
  else (Ok (statuses s), s, w).
Proof.
  unfold getStatuses, must_refresh, bind, get_self, date_now.
  destruct (force || _); reflexivity.
Qed.

Lemma refresh_spec s w out s' w' :
  refresh s w = (out, s', w') ->
  trace w' = trace w ++ [ApiGet true] /\
  tick w' = S (tick w) /\
  replies w' = replies w /\ tuyapi_rejects w' = tuyapi_rejects w /\
  maxStatusUpdateAge s' = maxStatusUpdateAge s /\
  match rejected (replies w (tick w)) with
  | Some e => out = Throw e /\ cache s' = cache s
  | None =>
      out = Ok (Some (reply_status (replies w (tick w)))) /\
      statuses s' = Some (reply_status (replies w (tick w))) /\
      lastStatusUpdate s' = Some (now w')
  end.
Proof.
  unfold refresh, api_get. unfold bind at 1 2.
  destruct (await_api (ApiGet true) s w) as [[[r|e] s1] w1] eqn:E;
    pose proof (await_api_spec _ _ _ _ _ _ E)
      as (Ho & [Hc Hm] & _ & Htr & Hti & _ & Hr & Hrj);
    simpl in Hc, Hm; intros H.
  - destruct (rejected (replies w (tick w))); [discriminate|].
    injection Ho as ->. injection H as <- <- <-. simpl. auto 10.
  - injection H as <- <- <-.
    destruct (rejected (replies w (tick w))); [|discriminate].
    injection Ho as ->. auto 10.
Qed.

(** The three ways a status query can end. *)
Lemma getStatuses_refresh force s w :
  must_refresh force s w = true ->
  match doWork (ret tt) s w with
  | (Throw e, s1, w1) => getStatuses force s w = (Throw e, s1, w1)
  | (Ok _, s1, w1) =>
      exists s2 w2,
        getStatuses force s w =
          (match rejected (replies w1 (tick w1)) with
           | Some e => Throw e
           | None => Ok (Some (reply_status (replies w1 (tick w1))))
           end, s2, w2) /\
        trace w2 = trace w1 ++ [ApiGet true] /\
        tick w2 = S (tick w1) /\
        replies w2 = replies w /\ tuyapi_rejects w2 = tuyapi_rejects w /\
        maxStatusUpdateAge s2 = maxStatusUpdateAge s /\
        match rejected (replies w1 (tick w1)) with
        | Some e => cache s2 = cache s
        | None =>
            statuses s2 = Some (reply_status (replies w1 (tick w1))) /\
            lastStatusUpdate s2 = Some (now w2)
        end
  end.
Proof.
  intros Hc. rewrite getStatuses_unfold, Hc, (doWork_split refresh).
  destruct (doWork (ret tt) s w) as [[[[]|e] s1] w1] eqn:E; [|reflexivity].
  destruct (doWork_prelude _ _ _ _ _ E) as (Hca & Hm & Hr & Hrj & _).
  destruct (refresh s1 w1) as [[out s2] w2] eqn:E2.
  destruct (refresh_spec _ _ _ _ _ E2) as (Htr & Hti & Hr2 & Hrj2 & Hm2 & H).
  exists s2, w2.
  destruct (rejected (replies w1 (tick w1))) as [e|].
  - destruct H as [-> H]. repeat split; congruence.
  - destruct H as (-> & H1 & H2). repeat split; congruence.
Qed.

Lemma getStatuses_cached force s w :
  must_refresh force s w = false ->
  getStatuses force s w = (Ok (statuses s), s, w).
Proof. intros Hc. by rewrite getStatuses_unfold, Hc. Qed.

(** ** Counting the events of a run *)

Lemma events_since_app w w' evs :
  trace w' = trace w ++ evs -> events_since w w' = evs.
Proof. unfold events_since. intros ->. by rewrite drop_app_length. Qed.

Lemma events_since_refl w : events_since w w = [].
Proof. apply events_since_app. by rewrite app_nil_r. Qed.

Lemma filter_none {A} (p q : A -> bool) (l : list A) :
  (forall x, p x = true -> q x = false) ->
  forallb p l = true -> List.filter q l = [].
Proof.
  intros Hpq. induction l as [|x l IH]; simpl; [done|].
  intros [Hx Hl]%andb_true_iff. by rewrite (Hpq x Hx), IH.
Qed.

Lemma prelude_no_reads evs : forallb is_prelude evs = true -> reads evs = [].
Proof. apply filter_none. by intros []. Qed.

Lemma prelude_no_writes evs : forallb is_prelude evs = true -> writes evs = [].
Proof. apply filter_none. by intros []. Qed.

Lemma api_no_callbacks evs : forallb is_api evs = true -> callbacks evs = [].
Proof. apply filter_none. by intros []. Qed.

Lemma forallb_weaken {A} (p q : A -> bool) (l : list A) :
  (forall x, p x = true -> q x = true) ->
  forallb p l = true -> forallb q l = true.
Proof.
  intros Hpq. induction l as [|x l IH]; simpl; [done|].
  intros [Hx Hl]%andb_true_iff. by rewrite (Hpq x Hx), IH.
Qed.

Lemma extends_weaken (P Q : Event -> bool) w w' :
  (forall e, P e = true -> Q e = true) ->
  extends_with P w w' -> extends_with Q w w'.
Proof.
  intros HPQ (Hr & Hc & Ht & evs & He & HP).
  repeat split; auto. exists evs. eauto using forallb_weaken.
Qed.

(** A read after the connection step is the only read so far. *)
Lemma reads_after_prelude w w1 w2 pre :
  trace w1 = trace w ++ pre -> forallb is_prelude pre = true ->
  trace w2 = trace w1 ++ [ApiGet true] ->
  reads (events_since w w2) = [ApiGet true].
Proof.
  intros Hpre Hall Htr.
  rewrite (events_since_app w w2 (pre ++ [ApiGet true])).
  - unfold reads. rewrite List.filter_app.
    fold (reads pre). by rewrite (prelude_no_reads _ Hall).
  - by rewrite Htr, Hpre, <- app_assoc.
Qed.

(** * The claims *)

(** C4.  A status query without [force] made while the cached snapshot is
    younger than the freshness window returns that very snapshot and does
    nothing else: no transport request, no change of the session.  And
    whenever a query (forced or not) performs a transport read that
    resolves, the snapshot it returns is the transport's reply, and the
    session's cache holds exactly that reply together with the time at
    which the read completed.  A newly constructed session has a window of
    30000 ms. *)
Theorem getStatuses_cache_contract (s : RoboVac) (w : World) :
  (now w - to_number (lastStatusUpdate s) < maxStatusUpdateAge s ->
   getStatuses false s w = (Ok (statuses s), s, w)) /\
  (forall force v s' w',
     getStatuses force s w = (Ok v, s', w') ->
     In (ApiGet true) (events_since w w') ->
     exists k, (tick w <= k)%nat /\ tick w' = S k /\
       rejected (replies w k) = None /\
       v = Some (reply_status (replies w k)) /\
       cache s' = (Some (reply_status (replies w k)), Some (now w'))) /\
  (forall config timeout s0,
     RoboVac_new config timeout w = Ok s0 ->
     maxStatusUpdateAge s0 = 30000 /\ cache s0 = (None, None)).
Proof.
  split; [|split].
  - intros Hage. apply getStatuses_cached. unfold must_refresh. simpl.
    rewrite Z.gtb_ltb. apply Z.ltb_ge. lia.
  - intros force v s' w' H Hin.
    destruct (must_refresh force s w) eqn:Hc.
    + pose proof (getStatuses_refresh force s w Hc) as Hr.
      destruct (doWork (ret tt) s w) as [[[[]|e] s1] w1] eqn:E.
      * destruct Hr as (s2 & w2 & Hq & Htr & Hti & Hrp & _ & _ & Hcache).
        destruct (doWork_prelude _ _ _ _ _ E) as (_ & _ & Hrp1 & _ & Hle & _).
        rewrite H in Hq. rewrite Hrp1 in *.
        exists (tick w1).
        destruct (rejected (replies w (tick w1))); [discriminate|].
        injection Hq as -> <- <-. destruct Hcache as [Hs Hl].
        unfold cache. rewrite Hs, Hl. auto.
      * congruence.
    + rewrite (getStatuses_cached _ _ _ Hc) in H. injection H as _ _ <-.
      rewrite events_since_refl in Hin. destruct Hin.
  - intros config timeout s0. unfold RoboVac_new.
    destruct (falsy _); [discriminate|].
    destruct (tuyapi_rejects _ _); [discriminate|].
    intros [= <-]. split; reflexivity.
Qed.


(** ** Which requests each method can issue *)

Section Query.
Variable P : Event -> bool.
Hypothesis P_find : forall t, P (ApiFind t) = true.
Hypothesis P_connect : P ApiConnect = true.
Hypothesis P_get : forall b, P (ApiGet b) = true.

Lemma Ext_getStatuses force : preserves (Ext P) (getStatuses force).
Proof.
  unfold getStatuses. pres. apply Ext_doWork; auto.
  unfold api_get. pres.
Qed.

Lemma Ext_dps_of {A} st (field : Dps -> A) : preserves (Ext P) (dps_of st field).
Proof. unfold dps_of. pres. Qed.

Lemma Ext_accessor {A} force (field : Dps -> A) :
  preserves (Ext P) (st <- getStatuses force;; dps_of st field).
Proof. pres; auto using Ext_getStatuses, Ext_dps_of. Qed.
End Query.

Section Command.
Variable P : Event -> bool.
Hypothesis P_find : forall t, P (ApiFind t) = true.
Hypothesis P_connect : P ApiConnect = true.
Hypothesis P_set : forall m d, P (ApiSet m d) = true.

Lemma Ext_set data : preserves (Ext P) (set data).
Proof. unfold set, api_set. pres. Qed.

Lemma Ext_doWork_set data : preserves (Ext P) (doWork (set data)).
Proof. apply Ext_doWork; auto using Ext_set. Qed.
End Command.

Lemma KeepsCache_set data : preserves KeepsCache (set data).
Proof. unfold set, api_set. pres. Qed.

(** What a write does: one request, carrying the whole mapping. *)
Lemma set_spec data s w :
  exists s' w',
    set data s w =
      (match rejected (replies w (tick w)) with
       | Some e => Throw e
       | None => Ok tt
       end, s', w') /\
    trace w' = trace w ++ [ApiSet true data] /\
    tick w' = S (tick w) /\
    cache s' = cache s.
Proof.
  unfold set, api_set, log_debug, with_world. unfold bind at 1 2.
  destruct (await_api (ApiSet true data) s _) as [[out s1] w1] eqn:E.
  destruct (await_api_spec _ _ _ _ _ _ E)
    as (Ho & [Hc _] & _ & Htr & Hti & _).
  simpl in *. exists s1, w1.
  destruct (rejected _); subst out; auto.
Qed.

Lemma events_since_trans w w1 w2 evs1 evs2 :
  trace w1 = trace w ++ evs1 -> trace w2 = trace w1 ++ evs2 ->
  events_since w w2 = evs1 ++ evs2.
Proof.
  intros H1 H2. apply events_since_app. by rewrite H2, H1, <- app_assoc.
Qed.

(** A write behind the connection step. *)
Lemma doWork_set_spec data s w :
  match doWork (ret tt) s w with
  | (Throw e, s1, w1) =>
      doWork (set data) s w = (Throw e, s1, w1) /\
      writes (events_since w w1) = []
  | (Ok _, s1, w1) =>
      exists s2 w2,
        doWork (set data) s w =
          (match rejected (replies w (tick w1)) with
           | Some e => Throw e
           | None => Ok tt
           end, s2, w2) /\
        trace w2 = trace w1 ++ [ApiSet true data] /\
        writes (events_since w w2) = [ApiSet true data] /\
        cache s2 = cache s
  end.
Proof.
  rewrite (doWork_split (set data)).
  destruct (doWork (ret tt) s w) as [[[[]|e] s1] w1] eqn:E;
    destruct (doWork_prelude _ _ _ _ _ E)
      as (Hc & _ & Hrp1 & _ & Hle & pre & Hpre & Hall).
  - destruct (set_spec data s1 w1) as (s2 & w2 & Hq & Htr & Hti & Hc2).
    rewrite Hrp1 in Hq. exists s2, w2. repeat split; auto; [|congruence].
    rewrite (events_since_trans _ _ _ _ _ Hpre Htr).
    unfold writes. rewrite List.filter_app. fold (writes pre).
    by rewrite (prelude_no_writes _ Hall).
  - split; [reflexivity|].
    rewrite (events_since_app _ _ _ Hpre). by apply prelude_no_writes.
Qed.

(** C6.  Whatever mapping of data-point codes to values [set] is given
    (empty, one field, many fields), the run issues exactly one transport
    request: a [set] with [multiple: true] whose [data] is the whole
    mapping, unchanged.  It consumes one reply of the transport and fails
    exactly when that reply is a rejection. *)
Theorem set_single_message (data : gmap string DpValue) (s : RoboVac)
    (w : World) :
  exists s' w',
    set data s w =
      (match rejected (replies w (tick w)) with
       | Some e => Throw e
       | None => Ok tt
       end, s', w') /\
    events_since w w' = [ApiSet true data] /\
    tick w' = S (tick w).
Proof.
  destruct (set_spec data s w) as (s' & w' & Hq & Htr & Hti & _).
  exists s', w'. repeat split; auto. by apply events_since_app.
Qed.


Lemma extends_events P w w' :
  extends_with P w w' ->
  trace w' = trace w ++ events_since w w' /\
  forallb P (events_since w w') = true.
Proof.
  intros (_ & _ & _ & evs & He & HP).
  by rewrite (events_since_app _ _ _ He).
Qed.

Lemma events_since_chain P Q w w1 w2 :
  extends_with P w w1 -> extends_with Q w1 w2 ->
  events_since w w2 = events_since w w1 ++ events_since w1 w2.
Proof.
  intros [H1 _]%extends_events [H2 _]%extends_events.
  exact (events_since_trans _ _ _ _ _ H1 H2).
Qed.

Lemma forced_query_reads s w v s' w' :
  getStatuses true s w = (Ok v, s', w') ->
  reads (events_since w w') = [ApiGet true] /\
  writes (events_since w w') = [] /\
  extends_with is_query w w' /\
  exists r, v = Some r.
Proof.
  intros H.
  pose proof (Ext_getStatuses is_query (fun _ => eq_refl) eq_refl
                (fun _ => eq_refl) true _ _ _ _ _ H) as HE.
  unfold Ext in HE; simpl in HE.
  destruct (extends_events _ _ _ HE) as [_ Hall].
  pose proof (getStatuses_refresh true s w eq_refl) as Hf.
  destruct (doWork (ret tt) s w) as [[[[]|e] s1] w1] eqn:E.
  - destruct Hf as (s2 & w2 & Hq & Htr & _). rewrite H in Hq.
    destruct (doWork_prelude _ _ _ _ _ E)
      as (_ & _ & _ & _ & _ & pre & Hpre & Hpres).
    destruct (rejected _); [discriminate|].
    injection Hq as -> <- <-.
    split; [exact (reads_after_prelude _ _ _ _ Hpre Hpres Htr)|].
    split; [|split; [exact HE|eauto]].
    revert Hall. apply filter_none. by intros [].
  - congruence.
Qed.

Lemma goHome_unfold s w :
  goHome s w =
  match getWorkStatus true s w with
  | (Ok ws, s1, w1) =>
      if bool_decide (ws = WorkStatus.COMPLETED)
         || bool_decide (ws = WorkStatus.CHARGING)
      then (Ok tt, s1, add_log (LogDebug "RoboVac is already Home") w1)
      else doWork (set {[ GO_HOME := VBool true ]}) s1 w1
  | (Throw e, s1, w1) => (Throw e, s1, w1)
  end.
Proof.
  unfold goHome. unfold bind at 1.
  destruct (getWorkStatus true s w) as [[[ws|e] s1] w1]; [|reflexivity].
  destruct (_ || _); reflexivity.
Qed.


(** ** The accessory's steps *)

Lemma Ext_on_roboVac {A} P (m : M RoboVac A) :
  preserves (Ext P) m -> preserves (Ext P) (on_roboVac m).
Proof.
  intros Hm a w out a' w'. unfold on_roboVac.
  destruct (roboVac a) as [rv|].
  - destruct (m rv w) as [[r rv'] w1] eqn:E. intros [= <- <- <-].
    exact (Hm _ _ _ _ _ E).
  - intros [= <- <- <-]. apply extends_refl.
Qed.

Lemma Ext_new_RoboVac P (f : Accessory -> World -> Outcome RoboVac) :
  preserves (Ext P) (fun a w => (f a w, a, w)).
Proof. intros a w out a' w' [= <- <- <-]. apply extends_refl. Qed.

Lemma Ext_invoke_get_noop P err v :
  preserves (Ext P) (invoke_get NoopCallback err v).
Proof. simpl. pres. Qed.

#[global] Hint Resolve Ext_on_roboVac Ext_new_RoboVac Ext_invoke_get_noop
  : preserves.

Lemma is_api_find t : is_api (ApiFind t) = true.
Proof. reflexivity. Qed.
Lemma is_api_get b : is_api (ApiGet b) = true.
Proof. reflexivity. Qed.
Lemma is_api_set m d : is_api (ApiSet m d) = true.
Proof. reflexivity. Qed.

Lemma api_getStatuses force : preserves (Ext is_api) (getStatuses force).
Proof. apply Ext_getStatuses; auto using is_api_find, is_api_get. Qed.

Lemma api_accessor {A} force (field : Dps -> A) :
  preserves (Ext is_api) (st <- getStatuses force;; dps_of st field).
Proof. apply Ext_accessor; auto using is_api_find, is_api_get. Qed.

Lemma api_getPlayPause force : preserves (Ext is_api) (getPlayPause force).
Proof. apply api_accessor. Qed.

Lemma api_setup : preserves (Ext is_api) setup.
Proof. unfold setup. pres. apply Ext_on_roboVac, api_getStatuses. Qed.

(** The retry of [getCleanState] runs with the empty callback: however
    many retries are followed, it only talks to the transport. *)
Lemma api_getCleanState_noop retries :
  preserves (Ext is_api) (getCleanState retries NoopCallback).
Proof.
  induction retries as [|n IH]; simpl; pres;
    auto using api_setup, api_getPlayPause with preserves.
Qed.

(** ** GET handlers on failure *)

Lemma events_since_add_event w e : events_since w (add_event e w) = [e].
Proof. by apply events_since_app. Qed.

Lemma events_since_add_log_event w l e :
  events_since w (add_event e (add_log l w)) = [e].
Proof. by apply events_since_app. Qed.

Ltac handler_fails Ha :=
  unfold try_catch, bind, log_debug, with_world in *; simpl in *;
  rewrite Ha; simpl;
  eexists; split; [reflexivity|];
  first [apply events_since_add_event | apply events_since_add_log_event].

(** The five handlers other than [getCleanState] push their default when
    the accessor throws: one callback, and the handler itself resolves. *)
Lemma getBatteryLevel_default a w e a1 w1 :
  on_roboVac (getBatteyLevel false) a
    (add_log (LogDebug "getBatteryLevel for") w) = (Throw e, a1, w1) ->
  exists w', getBatteryLevel HapCallback a w = (Ok tt, a1, w') /\
             events_since w1 w' = [GetCallback ErrNull (CvNum 0)].
Proof. intros Ha. unfold getBatteryLevel. handler_fails Ha. Qed.

Lemma getChargingState_default a w e a1 w1 :
  on_roboVac (getWorkStatus false) a
    (add_log (LogDebug "getChargingState for") w) = (Throw e, a1, w1) ->
  exists w', getChargingState HapCallback a w = (Ok tt, a1, w') /\
             events_since w1 w' = [GetCallback ErrNull (CvBool false)].
Proof. intros Ha. unfold getChargingState. handler_fails Ha. Qed.

Lemma getStatusLowBattery_default a w e a1 w1 :
  on_roboVac (getBatteyLevel false) a w = (Throw e, a1, w1) ->
  exists w', getStatusLowBattery HapCallback a w = (Ok tt, a1, w') /\
             events_since w1 w' = [GetCallback ErrNull (CvBool false)].
Proof. intros Ha. unfold getStatusLowBattery. handler_fails Ha. Qed.

Lemma getFindRobot_default a w e a1 w1 :
  on_roboVac (getFindRobot false) a
    (add_log (LogDebug "getFindRobot for") w) = (Throw e, a1, w1) ->
  exists w', getFindRobot_handler HapCallback a w = (Ok tt, a1, w') /\
             events_since w1 w' = [GetCallback ErrNull (CvBool false)].
Proof. intros Ha. unfold getFindRobot_handler. handler_fails Ha. Qed.

Lemma getErrorStatus_default a w e a1 w1 :
  on_roboVac (getErrorCode false) a w = (Throw e, a1, w1) ->
  exists w', getErrorStatus HapCallback a w = (Ok tt, a1, w') /\
             events_since w1 w' = [GetCallback ErrNull (CvBool false)].
Proof. intros Ha. unfold getErrorStatus. handler_fails Ha. Qed.

(** C1, at the handler that breaks it.  When the accessor [getPlayPause]
    throws, [getCleanState] never invokes the callback HomeKit passed in:
    it rebuilds the session and retries with the empty callback, so no
    completion (neither the default [false] nor anything else) is ever
    signalled, however many retries are followed. *)
Theorem getCleanState_failure_never_calls_back
    (retries : nat) (a : Accessory) (w : World) e a1 w1 out a' w' :
  on_roboVac (getPlayPause true) a
    (add_log (LogDebug "getCleanState for") w) = (Throw e, a1, w1) ->
  getCleanState retries HapCallback a w = (out, a', w') ->
  callbacks (events_since w w') = [].
Proof.
  intros Ha H.
  assert (extends_with is_api w w') as HE.
  { pose proof (api_getPlayPause true) as Hp.
    apply (Ext_on_roboVac is_api) in Hp.
    pose proof (Hp _ _ _ _ _ Ha) as H1. unfold Ext in H1; simpl in H1.
    assert (extends_with is_api w1 w') as H2.
    { destruct retries as [|n]; simpl in H;
        unfold try_catch in H; unfold bind at 1 in H;
        unfold log_debug at 1, with_world in H;
        unfold bind at 1 in H; rewrite Ha in H; unfold bind at 1 in H;
        destruct (setup a1 w1) as [[[st|e'] a2] w2] eqn:E2;
        pose proof (api_setup _ _ _ _ _ E2) as H3;
        unfold Ext in H3; simpl in H3.
      - by injection H as _ _ <-.
      - by injection H as _ _ <-.
      - unfold detached in H.
        destruct (getCleanState n NoopCallback a2 w2) as [[r a3] w3] eqn:E3.
        pose proof (api_getCleanState_noop n _ _ _ _ _ E3) as H4.
        unfold Ext in H4; simpl in H4.
        injection H as _ _ <-. eapply extends_trans; eassumption.
      - by injection H as _ _ <-. }
    eapply extends_trans; [|exact H2].
    eapply extends_trans; [|exact H1].
    apply extends_add_log. }
  destruct (extends_events _ _ _ HE) as [_ Hall].
  by apply api_no_callbacks.
Qed.

(** The library's constructor refuses a missing or empty key, with the
    error "Key is missing or incorrect." when the id or the address is
    there. *)
Lemma TuyAPI_check_missing_key opts :
  falsy (opt_key opts) = true ->
  TuyAPI_check opts <> None /\
  (isValidString (opt_id opts) = true ->
   TuyAPI_check opts = Some (JsErr "TypeError: Key is missing or incorrect.")).
Proof.
  intros Hk. unfold TuyAPI_check, isValidString. rewrite Hk. simpl.
  split.
  - by destruct (negb _).
  - intros ->. reflexivity.
Qed.

Lemma library_world_rejects_missing_key r t :
  rejects_missing_key (library_world r t).
Proof. intros opts Hk. exact (proj1 (TuyAPI_check_missing_key opts Hk)). Qed.

(** C2.  Constructing the session calls the constructor of the transport
    as its first action after its own guard on [deviceId], so with a
    transport whose constructor refuses a missing key (as the tuyapi
    library's does): for every configuration whose [deviceId] is missing
    or empty or whose [localKey] is missing or empty, the constructor of
    the session throws, and [setup] fails leaving the accessory and the
    world exactly as they were (no request has been issued); a missing
    [deviceId] gives the error "You must pass through deviceId".  And
    whenever the construction succeeds, both [deviceId] and [localKey] are
    non-empty. *)
Theorem RoboVac_new_requires_id_and_key (config0 : Config) (timeout : Z)
    (w : World) :
  rejects_missing_key w ->
  (falsy (deviceId config0) || falsy (localKey config0) = true ->
   (exists e, RoboVac_new config0 timeout w = Throw e) /\
   (forall a, config a = config0 -> exists e, setup a w = (Throw e, a, w))) /\
  (falsy (deviceId config0) = true ->
   RoboVac_new config0 timeout w =
     Throw (JsErr "You must pass through deviceId")) /\
  (forall s, RoboVac_new config0 timeout w = Ok s ->
             falsy (deviceId config0) = false /\
             falsy (localKey config0) = false).
Proof.
  intros Hlib.
  assert (forall t, falsy (deviceId config0) || falsy (localKey config0) = true
                    -> exists e, RoboVac_new config0 t w = Throw e) as Hbad.
  { intros t Hf. unfold RoboVac_new.
    destruct (falsy (deviceId config0)); [eauto|]. simpl in Hf.
    match goal with
    | |- context [tuyapi_rejects w ?opts] =>
        pose proof (Hlib opts Hf) as Hrej;
        destruct (tuyapi_rejects w opts) as [e|]; [eauto|by destruct Hrej]
    end. }
  split; [|split].
  - intros Hf. split; [exact (Hbad timeout Hf)|].
    intros a Ha. destruct (Hbad 2 Hf) as [e He].
    exists e. unfold setup, bind, get_self. simpl. by rewrite Ha, He.
  - intros Hd. unfold RoboVac_new. by rewrite Hd.
  - intros s Hs.
    destruct (falsy (deviceId config0) || falsy (localKey config0)) eqn:Hf.
    + destruct (Hbad timeout eq_refl) as [e He]. congruence.
    + by apply orb_false_iff in Hf.
Qed.

(** C7.  When the battery accessor answers with [level], the low-battery
    handler invokes the callback once, with [BATTERY_LEVEL_LOW] if
    [level < 30] and [BATTERY_LEVEL_NORMAL] if [level >= 30] (so also at
    exactly 30). *)
Theorem getStatusLowBattery_threshold (a : Accessory) (w : World)
    (level : Z) a1 w1 :
  on_roboVac (getBatteyLevel false) a w = (Ok level, a1, w1) ->
  exists flag,
    getStatusLowBattery HapCallback a w =
      (Ok tt, a1,
       add_event (GetCallback ErrNull (CvStatusLowBattery flag)) w1) /\
    (level < 30 -> flag = BATTERY_LEVEL_LOW) /\
    (30 <= level -> flag = BATTERY_LEVEL_NORMAL).
Proof.
  intros Ha. unfold getStatusLowBattery, try_catch, bind. rewrite Ha.
  simpl. eexists. split; [reflexivity|].
  destruct (Z.ltb_spec level 30); split; intros; try reflexivity; lia.
Qed.

(** ** Taking a run apart *)

Lemma bind_inv {S A B} (m : M S A) (k : A -> M S B) s w out s' w' :
  bind m k s w = (out, s', w') ->
  (exists x s1 w1, m s w = (Ok x, s1, w1) /\ k x s1 w1 = (out, s', w')) \/
  (exists e, m s w = (Throw e, s', w') /\ out = Throw e).
Proof.
  unfold bind. destruct (m s w) as [[[x|e] s1] w1]; intros H.
  - left. eauto.
  - right. injection H as <- <- <-. eauto.
Qed.

Lemma on_roboVac_inv {A} (m : M RoboVac A) a w out a' w' :
  on_roboVac m a w = (out, a', w') ->
  (exists rv rv', roboVac a = Some rv /\ m rv w = (out, rv', w') /\
                  a' = set_roboVac (Some rv') a) \/
  (roboVac a = None /\ a' = a /\ w' = w /\ exists e, out = Throw e).
Proof.
  unfold on_roboVac. destruct (roboVac a) as [rv|].
  - destruct (m rv w) as [[r rv'] w1] eqn:E. intros [= <- <- <-]. left.
    exists rv, rv'. auto.
  - intros [= <- <- <-]. right. eauto.
Qed.

Lemma sleep_spec ms a w :
  exists a' w',
    sleep ms a w = (Ok tt, a', w') /\
    trace w' = trace w ++ [Sleep ms] /\
    now w' = now w + ms + elapsed (replies w (tick w)) /\
    replies w' = replies w /\ tuyapi_rejects w' = tuyapi_rejects w /\
    (tick w <= tick w')%nat.
Proof.
  unfold sleep. destruct (roboVac a) as [rv|].
  - destruct (dispatch _ rv _) as [[r rv'] w1] eqn:E.
    pose proof (Quiet_dispatch _ _ _ _ _ _ E) as (Hr & Hc & Ht & Hn & Htr).
    simpl in *. eexists _, w1. split; [reflexivity|].
    rewrite Htr, Hn, Hr, Hc, Ht. simpl. repeat split; auto; lia.
  - eexists _, _. split; [reflexivity|]. simpl. repeat split; auto.
Qed.

Lemma doWork_set_ok data s w s' w' :
  doWork (set data) s w = (Ok tt, s', w') ->
  exists pre, forallb is_prelude pre = true /\
              trace w' = trace w ++ pre ++ [ApiSet true data].
Proof.
  intros H. pose proof (doWork_set_spec data s w) as Hs.
  destruct (doWork (ret tt) s w) as [[[[]|e] s1] w1] eqn:E.
  - destruct Hs as (s2 & w2 & Hq & Htr & _).
    destruct (doWork_prelude _ _ _ _ _ E)
      as (_ & _ & _ & _ & _ & pre & Hpre & Hall).
    rewrite H in Hq. injection Hq as _ <- <-.
    exists pre. split; [exact Hall|]. by rewrite Htr, Hpre, <- app_assoc.
  - destruct Hs as [Hq _]. congruence.
Qed.

Lemma api_goHome : preserves (Ext is_api) goHome.
Proof.
  unfold goHome. pres.
  - apply (api_accessor true dp15).
  - apply Ext_doWork_set; auto using is_api_find, is_api_set.
Qed.

Lemma api_setPlayPause state : preserves (Ext is_api) (setPlayPause state).
Proof. apply Ext_doWork_set; auto using is_api_find, is_api_set. Qed.

(** A [goHome] that returns has issued its forced read. *)
Lemma goHome_ok_reads s w s' w' :
  goHome s w = (Ok tt, s', w') -> In (ApiGet true) (events_since w w').
Proof.
  intros H. unfold goHome in H.
  apply bind_inv in H as [(ws & s1 & w1 & H1 & H2) | (e & _ & ?)];
    [|discriminate].
  unfold getWorkStatus in H1.
  apply bind_inv in H1 as [(v & s0 & w0 & H0 & H3) | (e & _ & ?)];
    [|discriminate].
  destruct (forced_query_reads _ _ _ _ _ H0) as (Hr & _ & HE & r & ->).
  simpl in H3. injection H3 as _ <- <-.
  assert (extends_with is_api w0 w') as HE2.
  { destruct (_ || _).
    - injection H2 as _ <-. apply extends_add_log.
    - exact (Ext_doWork_set is_api is_api_find eq_refl is_api_set
               _ _ _ _ _ _ H2). }
  rewrite (events_since_chain _ _ _ _ _ HE HE2).
  apply in_or_app. left.
  assert (In (ApiGet true) (reads (events_since w w0))) as Hin
    by (rewrite Hr; by left).
  by apply List.filter_In in Hin as [? _].
Qed.

Lemma not_callback_none evs :
  forallb not_callback evs = true -> callbacks evs = [].
Proof. apply filter_none. intros e. unfold not_callback. by destruct (is_callback e). Qed.

Lemma api_not_callback e : is_api e = true -> not_callback e = true.
Proof. by destruct e. Qed.

Lemma extends_sleep ms a w a' w' :
  sleep ms a w = (Ok tt, a', w') -> extends_with not_callback w w'.
Proof.
  intros H. destruct (sleep_spec ms a w) as (a2 & w2 & Hs & Htr & _ & Hr & Hc & Ht).
  rewrite H in Hs. injection Hs as <- <-.
  repeat split; auto. by exists [Sleep ms].
Qed.

(** ** Runs against a transport that accepts every request *)

Lemma accepting_extends P w w' :
  extends_with P w w' -> accepting w -> accepting w'.
Proof. intros (Hr & _) Ha k. rewrite Hr. apply Ha. Qed.

Lemma await_api_accepted request s w :
  accepting w ->
  exists s' w', await_api request s w = (Ok (replies w (tick w)), s', w').
Proof.
  intros Ha. destruct (await_api request s w) as [[out s'] w'] eqn:E.
  destruct (await_api_spec _ _ _ _ _ _ E) as (Ho & _).
  rewrite Ha in Ho. subst out. eauto.
Qed.

Lemma connect_accepted s w :
  accepting w -> exists s' w', connect s w = (Ok tt, s', w').
Proof.
  intros Ha. unfold connect, bind, get_self.
  destruct (negb (connected s)); [|unfold ret; eauto].
  unfold log_debug, with_world, api_connect, bind.
  destruct (await_api_accepted ApiConnect s
              (add_log (LogDebug "Connecting...") w) Ha)
    as (s' & w' & ->).
  unfold ret. eauto.
Qed.

Lemma prelude_accepted s w :
  accepting w -> exists s1 w1, doWork (ret tt) s w = (Ok tt, s1, w1).
Proof.
  intros Ha.
  destruct (doWork (ret tt) s w) as [[[[]|e] s1] w1] eqn:E; [eauto|].
  exfalso. unfold doWork in E.
  apply bind_inv in E as [(s0 & s' & w' & H0 & E) | (? & H0 & _)];
    [|discriminate].
  injection H0 as <- <- <-.
  apply bind_inv in E as [([] & s2 & w2 & H2 & E) | (e' & H2 & _)].
  - (* the connection itself *)
    assert (accepting w2) as Ha2.
    { refine (accepting_extends is_prelude _ _ _ Ha).
      revert H2. destruct (_ || _).
      - apply (preserves_bind (Ext is_prelude)); [apply Ext_log_debug|].
        intros _. apply preserves_try_catch; [apply _| |intros ?].
        + apply preserves_bind; [apply _| |intros ?].
          * by apply Ext_api_find.
          * apply Ext_log_debug.
        + apply Ext_log_debug.
      - intros [= <- <-]. apply extends_refl. }
    destruct (connect_accepted s2 w2 Ha2) as (s3 & w3 & Hc).
    apply bind_inv in E as [([] & ? & ? & _ & E) | (? & E & _)].
    + discriminate.
    + congruence.
  - (* the discovery step swallows its failure *)
    destruct (_ || _); [|discriminate].
    apply bind_inv in H2 as [([] & s3 & w3 & _ & H2) | (? & H2 & _)];
      [|discriminate].
    unfold try_catch in H2.
    destruct (bind _ _ s3 w3) as [[[[]|?] ?] ?]; discriminate.
Qed.

Lemma doWork_set_accepted data s w :
  accepting w -> exists s' w', doWork (set data) s w = (Ok tt, s', w').
Proof.
  intros Ha. pose proof (doWork_set_spec data s w) as H.
  destruct (prelude_accepted s w Ha) as (s1 & w1 & E). rewrite E in H.
  destruct H as (s2 & w2 & Hq & _). rewrite Ha in Hq. eauto.
Qed.

Lemma goHome_accepted s w :
  accepting w -> exists s' w', goHome s w = (Ok tt, s', w').
Proof.
  intros Ha. rewrite goHome_unfold. unfold getWorkStatus. unfold bind at 1.
  pose proof (getStatuses_refresh true s w eq_refl) as H.
  destruct (prelude_accepted s w Ha) as (s1 & w1 & E). rewrite E in H.
  destruct H as (s2 & w2 & Hq & _ & _ & Hr & _).
  destruct (doWork_prelude _ _ _ _ _ E) as (_ & _ & Hr1 & _).
  rewrite Hr1, Ha in Hq. rewrite Hq. simpl.
  destruct (_ || _); [eauto|].
  apply doWork_set_accepted. intros k. rewrite Hr. apply Ha.
Qed.

(** X18.  A SET of the clean state (start or stop) runs to completion
    and returns normally when the accessory has a session and the
    transport accepts every request. *)
Lemma setCleanState_completes state a w rv :
  roboVac a = Some rv -> accepting w ->
  exists a' w', setCleanState state HapCallback a w = (Ok tt, a', w').
Proof.
  intros Hrv Ha. unfold setCleanState. unfold bind at 1.
  unfold log_debug at 1, with_world. unfold bind at 1.
  set (w0 := add_log (LogDebug "setCleanState") w).
  assert (accepting w0) as Ha0 by exact Ha.
  destruct (doWork_set_accepted {[ PLAY_PAUSE := VBool state ]} rv w0 Ha0)
    as (rv1 & w1 & H1).
  assert (on_roboVac (setPlayPause state) a w0
          = (Ok tt, set_roboVac (Some rv1) a, w1)) as ->.
  { unfold on_roboVac, setPlayPause. by rewrite Hrv, H1. }
  assert (accepting w1) as Ha1.
  { refine (accepting_extends is_api _ _ _ Ha0).
    exact (Ext_doWork_set is_api is_api_find eq_refl is_api_set
             _ _ _ _ _ _ H1). }
  unfold bind at 1. destruct state; simpl.
  - unfold ret, emit, with_world. eauto.
  - unfold bind at 1.
    destruct (sleep_spec 2000 (set_roboVac (Some rv1) a) w1)
      as (a2 & w2 & Hs & _ & _ & Hr2 & _).
    rewrite Hs.
    assert (exists rv2, roboVac a2 = Some rv2) as [rv2 Hrv2].
    { revert Hs. unfold sleep. simpl.
      destruct (dispatch _ rv1 _) as [[? rv2] ?]. intros [= <- _]. simpl.
      eauto. }
    assert (accepting w2) as Ha2 by (intros k; rewrite Hr2; apply Ha1).
    destruct (goHome_accepted rv2 w2 Ha2) as (rv3 & w3 & Hg).
    unfold on_roboVac at 1. rewrite Hrv2, Hg.
    unfold emit, with_world. eauto.
Qed.

(** C8.  A SET of the clean state that completes has done the following,
    in this order.  For [true]: the write of [true] to the play/pause data
    point (behind the connection step), then the completion callback;
    nothing else, so no [goHome].  For [false]: the write of [false] to the
    play/pause data point has completed, then the 2000 ms timer has run
    (when it ends the clock is 2000 ms, plus the delay the suspension
    itself took, further), then [goHome] has run on the session (its
    forced read is among its events), and only then the completion
    callback is invoked, as the last event.  A SET that fails on the way
    never invokes the callback. *)
Theorem setCleanState_sequence (state : bool) (a : Accessory) (w : World)
    out a' w' :
  setCleanState state HapCallback a w = (out, a', w') ->
  match out with
  | Throw _ => callbacks (events_since w w') = []
  | Ok _ =>
      exists pre, forallb is_prelude pre = true /\
        if state then
          events_since w w' =
            pre ++ [ApiSet true {[ PLAY_PAUSE := VBool true ]}; SetCallback]
        else
          exists a1 w1 a2 w2 a3 w3,
            on_roboVac (setPlayPause false) a
              (add_log (LogDebug "setCleanState") w) = (Ok tt, a1, w1) /\
            sleep 2000 a1 w1 = (Ok tt, a2, w2) /\
            now w2 = now w1 + 2000 + elapsed (replies w (tick w1)) /\
            on_roboVac goHome a2 w2 = (Ok tt, a3, w3) /\
            In (ApiGet true) (events_since w2 w3) /\
            forallb is_api (events_since w2 w3) = true /\
            events_since w w' =
              pre ++ [ApiSet true {[ PLAY_PAUSE := VBool false ]}; Sleep 2000]
                  ++ events_since w2 w3 ++ [SetCallback]
  end.
Proof.
  intros H. unfold setCleanState in H.
  apply bind_inv in H as [([] & a0 & w0 & H0 & H) | (e & H0 & _)];
    [|discriminate].
  injection H0 as <- <-.
  set (w0 := add_log (LogDebug "setCleanState") w) in *.
  assert (extends_with not_callback w w0) as HE0 by apply extends_add_log.
  apply bind_inv in H as [([] & a1 & w1 & H1 & H) | (e & H1 & ->)].
  2:{ pose proof (Ext_on_roboVac is_api _ (api_setPlayPause state)
                    _ _ _ _ _ H1) as HE1.
      apply not_callback_none.
      eapply extends_events, extends_trans; [exact HE0|].
      eapply extends_weaken; [apply api_not_callback|exact HE1]. }
  pose proof H1 as H1'.
  apply on_roboVac_inv in H1 as [(rv & rv' & Hrv & Hm & ->) | (_ & _ & _ & e & ?)];
    [|discriminate].
  destruct (doWork_set_ok _ _ _ _ _ Hm) as (pre & Hall & Htr1).
  change (trace w0) with (trace w) in Htr1.
  apply bind_inv in H as [([] & a2 & w2 & H2 & H) | (e & H2 & ->)].
  - (* the steps before the callback succeeded *)
    injection H as <- <- <-. exists pre. split; [exact Hall|].
    destruct state; simpl in H2.
    + injection H2 as <- <-. apply events_since_app. simpl.
      by rewrite Htr1, <- !app_assoc.
    + apply bind_inv in H2 as [([] & a3 & w3 & H3 & H4) | (e & H3 & ?)];
        [|discriminate].
      destruct (sleep_spec 2000 (set_roboVac (Some rv') a) w1)
        as (a3' & w3' & Hs & Htr3 & Hn3 & Hr3 & _).
      rewrite H3 in Hs. injection Hs as <- <-.
      pose proof (Ext_on_roboVac is_api _ api_goHome _ _ _ _ _ H4) as HE4.
      unfold Ext in HE4; simpl in HE4.
      destruct (extends_events _ _ _ HE4) as [Htr4 Hall4].
      exists (set_roboVac (Some rv') a), w1, a3, w3, a2, w2.
      split; [exact H1'|]. split; [exact H3|]. split.
      { rewrite Hn3. do 2 f_equal.
        pose proof (Ext_on_roboVac is_api _ (api_setPlayPause false)
                      _ _ _ _ _ H1') as (Hr1 & _).
        simpl in Hr1. by rewrite Hr1. }
      split; [exact H4|]. split.
      { apply on_roboVac_inv in H4
          as [(rv3 & rv3' & _ & Hg & _) | (_ & _ & _ & e & ?)];
          [|discriminate].
        exact (goHome_ok_reads _ _ _ _ Hg). }
      split; [exact Hall4|].
      apply events_since_app. simpl.
      rewrite Htr4, Htr3, Htr1, <- !app_assoc. reflexivity.
  - (* the timer or [goHome] failed *)
    destruct state; simpl in H2; [discriminate|].
    apply bind_inv in H2 as [([] & a3 & w3 & H3 & H4) | (e' & H3 & ?)].
    + pose proof (Ext_on_roboVac is_api _ api_goHome _ _ _ _ _ H4) as HE4.
      pose proof (Ext_on_roboVac is_api _ (api_setPlayPause false)
                    _ _ _ _ _ H1') as HE1.
      unfold Ext in HE4, HE1; simpl in HE4, HE1.
      apply not_callback_none.
      eapply extends_events, extends_trans; [exact HE0|].
      eapply extends_trans;
        [eapply extends_weaken; [apply api_not_callback|exact HE1]|].
      eapply extends_trans; [exact (extends_sleep _ _ _ _ _ H3)|].
      eapply extends_weaken; [apply api_not_callback|exact HE4].
    + destruct (sleep_spec 2000 (set_roboVac (Some rv') a) w1)
        as (a3' & w3' & Hs & _).
      congruence.
Qed.

(** ** Who writes the cache *)

#[global] Instance CacheEffect_preorder : PreOrder CacheEffect.
Proof.
  split.
  - intros [s w]. split; [apply extends_refl|by left].
  - intros [s1 w1] [s2 w2] [s3 w3] [E12 H12] [E23 H23]; simpl in *.
    split; [by eapply extends_trans|].
    pose proof (events_since_chain _ _ _ _ _ E12 E23) as Hch.
    destruct E12 as (Hr12 & _ & Ht12 & _), E23 as (Hr23 & _ & Ht23 & _).
    destruct H23 as [H23|(k & Hk & Hrej & Hin & Hst & t & Hl)].
    + destruct H12 as [H12|(k & Hk & Hrej & Hin & Hst & t & Hl)].
      * left. simpl. congruence.
      * right. exists k; simpl in *. unfold cache in H23.
        injection H23 as Hs3 Hl3.
        repeat split; try lia; auto.
        -- rewrite Hch. apply in_or_app. by left.
        -- congruence.
        -- exists t. congruence.
    + right. exists k; simpl in *. rewrite Hr12 in *.
      repeat split; try lia; auto.
      * rewrite Hch. apply in_or_app. by right.
      * eauto.
Qed.

Lemma CacheEffect_of_keeps {A} (m : M RoboVac A) :
  preserves KeepsCache m -> preserves (Ext is_api) m ->
  preserves CacheEffect m.
Proof.
  intros HK HE s w out s' w' H. split.
  - exact (HE _ _ _ _ _ H).
  - left. exact (proj1 (HK _ _ _ _ _ H)).
Qed.

Lemma CacheEffect_getStatuses force : preserves CacheEffect (getStatuses force).
Proof.
  intros s w out s' w' H. split; [exact (api_getStatuses force _ _ _ _ _ H)|].
  simpl. destruct (must_refresh force s w) eqn:Hc.
  - pose proof (getStatuses_refresh force s w Hc) as Hr.
    destruct (doWork (ret tt) s w) as [[[[]|e] s1] w1] eqn:E;
      destruct (doWork_prelude _ _ _ _ _ E)
        as (Hca & _ & Hrp1 & _ & Hle & pre & Hpre & Hall).
    + destruct Hr as (s2 & w2 & Hq & Htr & Hti & _ & _ & _ & Hcache).
      rewrite H in Hq. injection Hq as -> <- <-. rewrite Hrp1 in *.
      destruct (rejected (replies w (tick w1))) eqn:Hrej; [by left|].
      right. exists (tick w1). simpl. destruct Hcache as [Hs Hl].
      repeat split; auto; try lia; [|eauto].
      rewrite (events_since_trans _ _ _ _ _ Hpre Htr).
      apply in_or_app. right. by left.
    + rewrite H in Hr. injection Hr as _ <- _. by left.
  - rewrite (getStatuses_cached _ _ _ Hc) in H. injection H as _ <- _.
    by left.
Qed.

Lemma KeepsCache_dps_of {A} st (field : Dps -> A) :
  preserves KeepsCache (dps_of st field).
Proof. unfold dps_of. pres. Qed.

Lemma KeepsCache_doWork_set data : preserves KeepsCache (doWork (set data)).
Proof. apply KeepsCache_doWork, KeepsCache_set. Qed.

Lemma KeepsCache_setWorkMode v : preserves KeepsCache (setWorkMode v).
Proof. apply KeepsCache_doWork. pres. apply KeepsCache_set. Qed.

Lemma KeepsCache_disconnect : preserves KeepsCache disconnect.
Proof. unfold disconnect, api_disconnect. pres. Qed.

Lemma KeepsCache_formatStatus : preserves KeepsCache formatStatus.
Proof. unfold formatStatus. pres. apply KeepsCache_dps_of. Qed.

Lemma api_doWork_set data : preserves (Ext is_api) (doWork (set data)).
Proof. apply Ext_doWork_set; auto using is_api_find, is_api_set. Qed.

Lemma api_set_method data : preserves (Ext is_api) (set data).
Proof. apply Ext_set; auto using is_api_set. Qed.

Lemma api_setWorkMode v : preserves (Ext is_api) (setWorkMode v).
Proof.
  apply Ext_doWork; auto using is_api_find. pres. apply api_set_method.
Qed.

Lemma api_connect_method : preserves (Ext is_api) connect.
Proof. apply Ext_connect. reflexivity. Qed.

Lemma api_disconnect_method : preserves (Ext is_api) disconnect.
Proof. unfold disconnect, api_disconnect. pres. Qed.

Lemma api_dps_of {A} st (field : Dps -> A) :
  preserves (Ext is_api) (dps_of st field).
Proof. unfold dps_of. pres. Qed.

Lemma api_formatStatus : preserves (Ext is_api) formatStatus.
Proof. unfold formatStatus. pres. apply api_dps_of. Qed.

Lemma api_log_debug msg : preserves (@Ext RoboVac is_api) (log_debug msg).
Proof. apply Ext_log_debug. Qed.

#[global] Hint Resolve CacheEffect_getStatuses : preserves.
#[global] Hint Resolve KeepsCache_dps_of KeepsCache_doWork_set
  KeepsCache_setWorkMode KeepsCache_disconnect KeepsCache_formatStatus
  KeepsCache_connect KeepsCache_set api_doWork_set api_set_method api_setWorkMode
  api_connect_method api_disconnect_method api_dps_of api_formatStatus
  api_log_debug : preserves.

(** Methods that do not go through [getStatuses] leave the cache as it
    is. *)
Lemma call_keeps m : queries m = false -> preserves KeepsCache (call m).
Proof.
  destruct m; try discriminate; intros _; simpl;
    unfold setCleanSpeed, setPlayPause, play, pause, setPlayPause,
      setWorkStatus, setFindRobot;
    auto with preserves.
Qed.

Lemma call_api m : queries m = false -> preserves (Ext is_api) (call m).
Proof.
  destruct m; try discriminate; intros _; simpl;
    unfold setCleanSpeed, setPlayPause, play, pause, setPlayPause,
      setWorkStatus, setFindRobot;
    auto with preserves.
Qed.

Lemma call_CacheEffect m : preserves CacheEffect (call m).
Proof.
  destruct (queries m) eqn:Hq.
  - destruct m; try discriminate; simpl;
      unfold discard, goHome, startCleaning;
      unfold getCleanSpeed, getPlayPause, getWorkMode, getWorkStatus,
        getFindRobot, getBatteyLevel, getErrorCode;
      pres;
      apply CacheEffect_of_keeps; auto with preserves.
  - apply CacheEffect_of_keeps; auto using call_keeps, call_api.
Qed.

(** C10.  The handlers of the transport's 'data' and 'dp-refresh' events
    leave the whole session as it is and only add two log lines; no
    handler (of any event, in any number) changes the cached snapshot or
    its capture time.  Every method of the session either leaves the cache
    as it is or ends with the cache holding the reply to a full-schema
    read that was issued and resolved during the call; and only the
    methods that go through [getStatuses] can change it at all. *)
Theorem cache_written_only_by_completed_read :
  (forall data s w,
     on_event (EvData data) s w =
       (Ok tt, s, add_log (LogDebug "Status Updated!")
                    (add_log (LogDebug "Data from device:") w))) /\
  (forall data s w,
     on_event (EvDpRefresh data) s w =
       (Ok tt, s, add_log (LogDebug "Status Updated!")
                    (add_log (LogDebug "DP_REFRESH data from device: ") w))) /\
  (forall evs s w out s' w',
     dispatch evs s w = (out, s', w') -> cache s' = cache s) /\
  (forall m s w out s' w',
     call m s w = (out, s', w') ->
     (cache s' = cache s \/ read_completed (s, w) (s', w')) /\
     (queries m = false -> cache s' = cache s)).
Proof.
  split; [reflexivity|]. split; [reflexivity|]. split.
  - intros evs s w out s' w' H.
    exact (proj1 (KeepsCache_dispatch evs _ _ _ _ _ H)).
  - intros m s w out s' w' H. split.
    + exact (proj2 (call_CacheEffect m _ _ _ _ _ H)).
    + intros Hq. exact (proj1 (call_keeps m Hq _ _ _ _ _ H)).
Qed.

Import Sample.

Example cached_battery :
  getBatteyLevel false (session true (status "Charging" 55) t0)
    (world unreachable (t0 + 10000))
  = (Ok 55, session true (status "Charging" 55) t0,
     world unreachable (t0 + 10000)).
Proof. reflexivity. Qed.

Example stop_run :
  events_since (world (answering (status "Running" 80)) t0)
    (setCleanState false HapCallback
       (accessory (Some (session false (status "Running" 80) t0)))
       (world (answering (status "Running" 80)) t0)).2
  = [ApiConnect; ApiSet true {[ PLAY_PAUSE := VBool false ]}; Sleep 2000;
     ApiGet true; ApiSet true {[ GO_HOME := VBool true ]}; SetCallback].
Proof. reflexivity. Qed.

Example unreachable_clean_state :
  events_since (world unreachable t0)
    (getCleanState 2 HapCallback
       (accessory (Some (session false (status "Running" 80) t0)))
       (world unreachable t0)).2
  = [ApiConnect; ApiConnect].
Proof. reflexivity. Qed.

(** * The claims at concrete inputs *)

(** C4 at the scenario "battery 55, captured 10 s ago, window 30 s". *)
Lemma getStatuses_cache_contract_witness :
  now (world unreachable (t0 + 10000))
    - to_number (lastStatusUpdate (session true (status "Charging" 55) t0))
    < maxStatusUpdateAge (session true (status "Charging" 55) t0) /\
  getStatuses false (session true (status "Charging" 55) t0)
    (world unreachable (t0 + 10000))
  = (Ok (Some (status "Charging" 55)),
     session true (status "Charging" 55) t0,
     world unreachable (t0 + 10000)).
Proof.
  split; [reflexivity|].
  apply (proj1 (getStatuses_cache_contract
                  (session true (status "Charging" 55) t0)
                  (world unreachable (t0 + 10000)))).
  reflexivity.
Defined.

(** C7 at a battery level of exactly 30. *)
Lemma getStatusLowBattery_threshold_witness :
  on_roboVac (getBatteyLevel false)
    (accessory (Some (session true (status "Running" 30) t0)))
    (world unreachable (t0 + 5000))
  = (Ok 30, accessory (Some (session true (status "Running" 30) t0)),
     world unreachable (t0 + 5000)) /\
  getStatusLowBattery HapCallback
    (accessory (Some (session true (status "Running" 30) t0)))
    (world unreachable (t0 + 5000))
  = (Ok tt, accessory (Some (session true (status "Running" 30) t0)),
     add_event
       (GetCallback ErrNull (CvStatusLowBattery BATTERY_LEVEL_NORMAL))
       (world unreachable (t0 + 5000))).
Proof.
  split; [reflexivity|].
  destruct (getStatusLowBattery_threshold
              (accessory (Some (session true (status "Running" 30) t0)))
              (world unreachable (t0 + 5000)) 30 _ _ eq_refl)
    as (flag & Hrun & _ & Hnormal).
  rewrite Hrun, Hnormal; [reflexivity|]. discriminate.
Defined.

(** C8 at a stop request on a running, reachable robot. *)
Lemma setCleanState_sequence_witness :
  setCleanState false HapCallback stop_accessory stop_world
    = (Ok tt, stop_request.1.2, stop_request.2) /\
  exists pre a1 w1 a2 w2 a3 w3,
    forallb is_prelude pre = true /\
    sleep 2000 a1 w1 = (Ok tt, a2, w2) /\
    on_roboVac goHome a2 w2 = (Ok tt, a3, w3) /\
    events_since stop_world stop_request.2 =
      pre ++ [ApiSet true {[ PLAY_PAUSE := VBool false ]}; Sleep 2000]
          ++ events_since w2 w3 ++ [SetCallback].
Proof.
  assert (setCleanState false HapCallback stop_accessory stop_world
          = (Ok tt, stop_request.1.2, stop_request.2)) as Hrun
    by (vm_compute; exact eq_refl).
  split; [exact Hrun|].
  destruct (setCleanState_sequence false stop_accessory stop_world (Ok tt)
              stop_request.1.2 stop_request.2 Hrun)
    as (pre & Hpre & a1 & w1 & a2 & w2 & a3 & w3 &
        _ & Hs & _ & Hg & _ & _ & Hev).
  exists pre, a1, w1, a2, w2, a3, w3.
  split; [exact Hpre|]. split; [exact Hs|]. split; [exact Hg|]. exact Hev.
Defined.

(** C1's theorem at an unreachable robot. *)
Lemma getCleanState_failure_witness :
  exists e a1 w1 out a' w',
    on_roboVac (getPlayPause true)
      (accessory (Some (session false (status "Running" 80) t0)))
      (add_log (LogDebug "getCleanState for") (world unreachable t0))
    = (Throw e, a1, w1) /\
    getCleanState 2 HapCallback
      (accessory (Some (session false (status "Running" 80) t0)))
      (world unreachable t0) = (out, a', w') /\
    callbacks (events_since (world unreachable t0) w') = [].
Proof.
  eexists _, _, _, _, _, _. split; [reflexivity|]. split; [reflexivity|].
  eapply (getCleanState_failure_never_calls_back 2
            (accessory (Some (session false (status "Running" 80) t0)))
            (world unreachable t0)); reflexivity.
Defined.

(** C2 at an empty [localKey], with the library's constructor. *)
Lemma RoboVac_new_requires_id_and_key_witness :
  rejects_missing_key (library_world unreachable t0) /\
  falsy (deviceId {| deviceId := Some "abc123"; localKey := Some "";
                     ip := Some "192.168.1.20"; port := 6668 |})
  || falsy (localKey {| deviceId := Some "abc123"; localKey := Some "";
                        ip := Some "192.168.1.20"; port := 6668 |}) = true /\
  exists e,
    RoboVac_new {| deviceId := Some "abc123"; localKey := Some "";
                   ip := Some "192.168.1.20"; port := 6668 |} 2
      (library_world unreachable t0) = Throw e.
Proof.
  split; [apply library_world_rejects_missing_key|].
  split; [reflexivity|].
  exact (proj1 (proj1 (RoboVac_new_requires_id_and_key
                         {| deviceId := Some "abc123"; localKey := Some "";
                            ip := Some "192.168.1.20"; port := 6668 |} 2
                         (library_world unreachable t0)
                         (library_world_rejects_missing_key unreachable t0))
                  eq_refl)).
Defined.

(** The session constructor against the library's constructor: an empty
    key and an empty id are refused with their two messages, and the
    sample configuration (a 16-character key) is accepted. *)
Example RoboVac_new_with_library :
  RoboVac_new {| deviceId := Some "abc123"; localKey := Some "";
                 ip := Some "192.168.1.20"; port := 6668 |} 2
    (library_world unreachable t0)
  = Throw (JsErr "TypeError: Key is missing or incorrect.") /\
  RoboVac_new {| deviceId := Some ""; localKey := Some "0123456789abcdef";
                 ip := Some "192.168.1.20"; port := 6668 |} 2
    (library_world unreachable t0)
  = Throw (JsErr "You must pass through deviceId") /\
  RoboVac_new config0 2 (library_world unreachable t0) = Ok sample_fresh.
Proof. repeat split. Qed.

(** C10 at a forced query on a reachable robot. *)
Lemma cache_written_only_by_completed_read_witness :
  forced_query = (forced_query.1.1, forced_query.1.2, forced_query.2) /\
  (cache forced_query.1.2 = cache (session false (status "Running" 80) t0)
   \/ read_completed
        (session false (status "Running" 80) t0,
         world (answering (status "Charging" 100)) (t0 + 1000))
        (forced_query.1.2, forced_query.2)).
Proof.
  assert (forced_query
          = (forced_query.1.1, forced_query.1.2, forced_query.2)) as Hrun
    by (vm_compute; exact eq_refl).
  split; [exact Hrun|].
  exact (proj1 (proj2 (proj2 (proj2 cache_written_only_by_completed_read))
                  (m_getStatuses true) _ _ _ _ _ Hrun)).
Defined.

(** * Further properties of the code *)

(** ** Connection and discovery *)

(** X1.  [connect] is guarded by the [connected] flag: on a session that
    is marked connected it does nothing at all (no request, no log line);
    otherwise it issues exactly one connect request and fails exactly when
    the transport rejects it.  [disconnect] has no such guard: whatever the
    flag says, it issues exactly one disconnect request. *)
Theorem connect_guarded (s : RoboVac) (w : World) :
  (connected s = true -> connect s w = (Ok tt, s, w)) /\
  (connected s = false ->
   exists s' w',
     connect s w =
       (match rejected (replies w (tick w)) with
        | Some e => Throw e
        | None => Ok tt
        end, s', w') /\
     events_since w w' = [ApiConnect]) /\
  (exists s' w',
     disconnect s w =
       (match rejected (replies w (tick w)) with
        | Some e => Throw e
        | None => Ok tt
        end, s', w') /\
     events_since w w' = [ApiDisconnect]).
Proof.
  split; [|split].
  - intros Hc. unfold connect, bind, get_self. by rewrite Hc.
  - intros Hc. unfold connect, bind, get_self. rewrite Hc. simpl.
    unfold api_connect, bind.
    destruct (await_api ApiConnect s _) as [[out s'] w'] eqn:E.
    destruct (await_api_spec _ _ _ _ _ _ E) as (Ho & _ & _ & Htr & _).
    simpl in Ho, Htr. exists s', w'. split.
    + subst out. by destruct (rejected _).
    + by apply events_since_app.
  - unfold disconnect, log_debug, with_world, api_disconnect, bind.
    destruct (await_api ApiDisconnect s _) as [[out s'] w'] eqn:E.
    destruct (await_api_spec _ _ _ _ _ _ E) as (Ho & _ & _ & Htr & _).
    simpl in Ho, Htr. exists s', w'. split.
    + subst out. by destruct (rejected _).
    + by apply events_since_app.
Qed.

(** X2.  [doWork] looks for the device only when the id or the address is
    missing.  With both known it is [connect] followed by the work.  With
    one missing it first issues one discovery request with the session's
    timeout; a rejected discovery is swallowed (the session keeps its
    [api.device] and the connection is attempted all the same), a
    successful one fills in id and address (this is how the transport's
    [find] is modelled); in both cases the cache is left alone and
    [connect] and the work follow. *)
Theorem doWork_discovery {A} (work : M RoboVac A) (s : RoboVac) (w : World) :
  (configured s = true -> doWork work s w = (connect;; work) s w) /\
  (configured s = false ->
   exists s1 w1,
     doWork work s w = (connect;; work) s1 w1 /\
     events_since w w1 = [ApiFind (timeoutDuration s)] /\
     cache s1 = cache s /\
     match rejected (replies w (tick w)) with
     | Some _ => api s1 = api s
     | None =>
         device_id (api s1) = Some (reply_id (replies w (tick w))) /\
         device_ip (api s1) = Some (reply_ip (replies w (tick w)))
     end).
Proof.
  unfold configured. split; intros Hc.
  - apply negb_true_iff in Hc. unfold doWork. unfold bind at 1 2.
    unfold get_self. by rewrite Hc.
  - apply negb_false_iff in Hc. unfold doWork. unfold bind at 1 2.
    unfold get_self. rewrite Hc.
    unfold bind at 1, log_debug at 1, with_world, try_catch.
    unfold bind at 1, api_find. unfold bind at 1.
    destruct (await_api (ApiFind (timeoutDuration s)) s _)
      as [[[r|e] s1] w1] eqn:E;
      destruct (await_api_spec _ _ _ _ _ _ E)
        as (Ho & [Hca _] & [Hapi _] & Htr & _);
      simpl in Ho, Hca, Hapi, Htr.
    + destruct (rejected (replies w (tick w))); [discriminate|].
      injection Ho as ->. simpl.
      eexists _, _. split; [reflexivity|]. simpl.
      split; [by apply events_since_app|]. split; [exact Hca|]. auto.
    + destruct (rejected (replies w (tick w))); [|discriminate].
      simpl. eexists _, _. split; [reflexivity|]. simpl.
      split; [by apply events_since_app|]. auto.
Qed.

Lemma dispatch_app evs1 evs2 s w :
  dispatch (evs1 ++ evs2) s w =
  dispatch evs2 (dispatch evs1 s w).1.2 (dispatch evs1 s w).2.
Proof.
  revert s w. induction evs1 as [|ev evs1 IH]; intros s w; [reflexivity|].
  simpl. unfold bind.
  destruct (on_event ev s w) as [[[[]|e] s1] w1] eqn:E.
  - apply IH.
  - destruct ev; simpl in E; unfold bind, modify, log_debug, log_error,
      with_world in E; simpl in E; discriminate.
Qed.

(** X3.  The [connected] flag follows the transport's events and nothing
    else in a handler run: events other than 'connected' and
    'disconnected' leave it as it is, and after any batch of events that
    ends with 'connected' (or 'disconnected') the flag is [true] (or
    [false]), whatever it was before. *)
Theorem connected_follows_events (evs : list ApiEvent) (s : RoboVac)
    (w : World) :
  (forallb (fun ev => negb (is_lifecycle ev)) evs = true ->
   connected (dispatch evs s w).1.2 = connected s) /\
  connected (dispatch (evs ++ [EvConnected]) s w).1.2 = true /\
  connected (dispatch (evs ++ [EvDisconnected]) s w).1.2 = false.
Proof.
  split; [|split; rewrite dispatch_app; reflexivity].
  revert s w. induction evs as [|ev evs IH]; intros s w; [reflexivity|].
  simpl. intros [Hev Hevs]%andb_true_iff. unfold bind at 1.
  destruct ev; try discriminate; simpl;
    unfold bind, log_debug, log_error, with_world; simpl; by rewrite IH.
Qed.

(** ** What no method of the session changes *)

#[global] Instance KeepsApi_preorder : PreOrder KeepsApi.
Proof.
  split.
  - intros [s w] _. split; [reflexivity|apply extends_refl].
  - intros [s1 w1] [s2 w2] [s3 w3] H12 H23 Hc; simpl in *.
    destruct (H12 Hc) as [Ha12 He12]. simpl in *.
    assert (configured s2 = true) as Hc2
      by (unfold configured in *; by rewrite Ha12).
    destruct (H23 Hc2) as [Ha23 He23]. simpl in *.
    split; [congruence|by eapply extends_trans].
Qed.

#[global] Instance KeepsSettings_preorder : PreOrder KeepsSettings.
Proof.
  split.
  - intros [s w]. unfold KeepsSettings. auto.
  - intros [s1 w1] [s2 w2] [s3 w3] (? & ? & ? & ?) (? & ? & ? & ?).
    unfold KeepsSettings; simpl in *. repeat split; congruence.
Qed.

Section AllMethods.
Variable R : RoboVac * World -> RoboVac * World -> Prop.
Context `{!PreOrder R}.
Hypothesis R_log : forall msg, preserves R (log_debug msg).
Hypothesis R_await :
  forall request, no_find request = true -> preserves R (await_api request).
Hypothesis R_statuses : forall st, preserves R (modify (set_statuses st)).
Hypothesis R_last : forall t, preserves R (modify (set_lastStatusUpdate t)).
Hypothesis R_doWork :
  forall A (work : M RoboVac A), preserves R work -> preserves R (doWork work).

(** A relation that the building blocks of the class preserve is preserved
    by every method. *)
Lemma all_methods m : preserves R (call m).
Proof.
  destruct m; simpl;
    unfold discard, goHome, startCleaning, play, pause;
    unfold getCleanSpeed, setCleanSpeed, getPlayPause, setPlayPause,
      getWorkMode, setWorkMode, getWorkStatus, setWorkStatus, setFindRobot,
      getFindRobot, getBatteyLevel, getErrorCode, formatStatus, connect,
      disconnect, getStatuses;
    unfold dps_of, set, api_set, api_get, api_connect, api_disconnect;
    repeat first [ apply R_doWork | pres_step ].
Qed.
End AllMethods.

Lemma KeepsApi_log msg : preserves KeepsApi (log_debug msg).
Proof.
  intros s w out s' w' [= <- <- <-] _. split; [reflexivity|].
  apply extends_add_log.
Qed.

Lemma KeepsApi_await request :
  no_find request = true -> preserves KeepsApi (await_api request).
Proof.
  intros Hreq s w out s' w' H _.
  destruct (await_api_spec _ _ _ _ _ _ H) as (_ & _ & [Hapi _] & _).
  split; [exact Hapi|]. exact (Ext_await_api no_find _ Hreq _ _ _ _ _ H).
Qed.

Lemma KeepsApi_modify (f : RoboVac -> RoboVac) :
  (forall s, api (f s) = api s) -> preserves KeepsApi (modify f).
Proof.
  intros Hf s w out s' w' [= <- <- <-] _. split; [apply Hf|].
  apply extends_refl.
Qed.

Lemma KeepsApi_connect : preserves KeepsApi connect.
Proof.
  unfold connect, api_connect. pres; auto using KeepsApi_log, KeepsApi_await.
Qed.

Lemma KeepsApi_doWork {A} (work : M RoboVac A) :
  preserves KeepsApi work -> preserves KeepsApi (doWork work).
Proof.
  intros Hw s w out s' w' H Hc.
  assert (preserves KeepsApi (connect;; work)) as Hcw
    by (pres; auto using KeepsApi_connect).
  refine (Hcw s w out s' w' _ Hc). simpl in Hc.
  assert (doWork work s w = (connect;; work) s w) as <-; [|exact H].
  unfold configured in Hc. apply negb_true_iff in Hc.
  unfold doWork. unfold bind at 1 2. unfold get_self. by rewrite Hc.
Qed.

Lemma KeepsApi_call m : preserves KeepsApi (call m).
Proof.
  apply all_methods; try apply _.
  - apply KeepsApi_log.
  - apply KeepsApi_await.
  - intros st. by apply KeepsApi_modify.
  - intros t. by apply KeepsApi_modify.
  - intros A work. apply KeepsApi_doWork.
Qed.

Lemma KeepsSettings_with_world f : preserves KeepsSettings (with_world f).
Proof. intros s w out s' w' [= <- <- <-]. by unfold KeepsSettings. Qed.

Lemma KeepsSettings_log msg : preserves KeepsSettings (log_debug msg).
Proof. apply KeepsSettings_with_world. Qed.

Lemma KeepsSettings_await request :
  preserves KeepsSettings (await_api request).
Proof.
  intros s w out s' w' H.
  destruct (await_api_spec _ _ _ _ _ _ H)
    as (_ & [_ Hm] & [Hapi Ht] & _).
  unfold KeepsSettings; simpl in *. rewrite Hapi. auto.
Qed.

Lemma KeepsSettings_modify (f : RoboVac -> RoboVac) :
  (forall s w, KeepsSettings (s, w) (f s, w)) ->
  preserves KeepsSettings (modify f).
Proof. intros Hf s w out s' w' [= <- <- <-]. apply Hf. Qed.

Lemma KeepsSettings_api_find t : preserves KeepsSettings (api_find t).
Proof.
  intros s w out s' w' H. unfold api_find in H.
  apply bind_inv in H as [(r & s1 & w1 & H1 & H) | (e & H1 & _)].
  - apply KeepsSettings_await in H1.
    unfold bind, get_self, modify in H. injection H as _ <- _.
    unfold KeepsSettings in *; simpl in *. tauto.
  - by apply KeepsSettings_await in H1.
Qed.

Lemma KeepsSettings_doWork {A} (work : M RoboVac A) :
  preserves KeepsSettings work -> preserves KeepsSettings (doWork work).
Proof.
  intros Hw. unfold doWork, connect, api_connect.
  pres; auto using KeepsSettings_log, KeepsSettings_await,
           KeepsSettings_api_find.
Qed.

Lemma KeepsSettings_call m : preserves KeepsSettings (call m).
Proof.
  apply all_methods; try apply _.
  - apply KeepsSettings_log.
  - intros request _. apply KeepsSettings_await.
  - intros st. by apply KeepsSettings_modify.
  - intros t. by apply KeepsSettings_modify.
  - intros A work. apply KeepsSettings_doWork.
Qed.

(** X4.  A session that knows both the id and the address of its device
    never runs discovery and never has its [api.device] (id, key, address,
    port) changed, whichever method is called and whatever the transport
    answers. *)
Theorem configured_session_never_discovers (m : Method) (s : RoboVac)
    (w : World) :
  configured s = true ->
  api (call m s w).1.2 = api s /\
  forall t, ~ In (ApiFind t) (events_since w (call m s w).2).
Proof.
  intros Hc. destruct (call m s w) as [[out s'] w'] eqn:E.
  destruct (KeepsApi_call m _ _ _ _ _ E Hc) as [Hapi HE]. simpl in *.
  split; [exact Hapi|]. intros t Hin.
  destruct (extends_events _ _ _ HE) as [_ Hall].
  rewrite forallb_forall in Hall. by apply Hall in Hin.
Qed.

(** X5.  No method of the session changes the freshness window, the
    discovery timeout, or the key and the port of the device: they stay
    what the constructor made them. *)
Theorem settings_are_constant (m : Method) (s : RoboVac) (w : World) :
  maxStatusUpdateAge (call m s w).1.2 = maxStatusUpdateAge s /\
  timeoutDuration (call m s w).1.2 = timeoutDuration s /\
  device_key (api (call m s w).1.2) = device_key (api s) /\
  device_port (api (call m s w).1.2) = device_port (api s).
Proof.
  destruct (call m s w) as [[out s'] w'] eqn:E.
  exact (KeepsSettings_call m _ _ _ _ _ E).
Qed.

(** ** The cache across calls *)

Lemma unforced_hit {A} (field : Dps -> A) s w :
  must_refresh false s w = false ->
  (st <- getStatuses false;; dps_of st field) s w
  = dps_of (statuses s) field s w.
Proof.
  intros Hc. unfold bind. by rewrite (getStatuses_cached _ _ _ Hc).
Qed.

Lemma within_window s w :
  now w - to_number (lastStatusUpdate s) <= maxStatusUpdateAge s ->
  must_refresh false s w = false.
Proof.
  intros H. unfold must_refresh. simpl. rewrite Z.gtb_ltb.
  apply Z.ltb_ge. lia.
Qed.

Lemma query_outcomes force s w out s' w' :
  getStatuses force s w = (out, s', w') ->
  maxStatusUpdateAge s' = maxStatusUpdateAge s /\
  match out with
  | Throw _ => cache s' = cache s
  | Ok v =>
      (v = statuses s /\ s' = s /\ w' = w) \/
      (In (ApiGet true) (events_since w w') /\
       cache s' = (v, Some (now w')) /\ exists r, v = Some r)
  end.
Proof.
  intros H. destruct (must_refresh force s w) eqn:Hc.
  - pose proof (getStatuses_refresh force s w Hc) as Hr.
    destruct (doWork (ret tt) s w) as [[[[]|e] s1] w1] eqn:E;
      destruct (doWork_prelude _ _ _ _ _ E)
        as (Hca & Hm & _ & _ & _ & pre & Hpre & _).
    + destruct Hr as (s2 & w2 & Hq & Htr & _ & _ & _ & Hm2 & Hcache).
      rewrite H in Hq. injection Hq as -> <- <-.
      split; [exact Hm2|].
      destruct (rejected (replies w1 (tick w1))); [exact Hcache|].
      right. destruct Hcache as [Hs Hl]. split; [|split; [|eauto]].
      * rewrite (events_since_trans _ _ _ _ _ Hpre Htr).
        apply in_or_app. right. by left.
      * unfold cache. by rewrite Hs, Hl.
    + rewrite H in Hr. injection Hr as -> <- <-. auto.
  - rewrite (getStatuses_cached _ _ _ Hc) in H.
    injection H as <- <- <-. auto.
Qed.

(** X6.  A status query that fails (the connection or the read is
    rejected) leaves the cached snapshot and its capture time as they
    were; so an unforced query made right after, while that snapshot is
    still within the window, is served from it without any request. *)
Theorem failed_query_keeps_snapshot (force : bool) (s : RoboVac) (w : World)
    e s' w' :
  getStatuses force s w = (Throw e, s', w') ->
  cache s' = cache s /\
  (now w' - to_number (lastStatusUpdate s) <= maxStatusUpdateAge s ->
   getStatuses false s' w' = (Ok (statuses s), s', w')).
Proof.
  intros H. destruct (query_outcomes _ _ _ _ _ _ H) as [Hm Hc].
  split; [exact Hc|]. intros Hage.
  injection Hc as Hs Hl.
  rewrite getStatuses_cached; [by rewrite Hs|].
  apply within_window. by rewrite Hl, Hm.
Qed.

(** X7.  Commands do not refresh or invalidate the cache.  After any
    method that does not go through [getStatuses] (the setters, [play],
    [pause], [connect], [disconnect], [set]), an unforced query made while
    the old snapshot is within the window returns that old snapshot
    without any request; in particular [getFindRobot()] right after
    [setFindRobot(state)] reports the find-robot value read before the
    write, not [state]. *)
Theorem command_leaves_snapshot_stale (m : Method) (s : RoboVac) (w : World)
    out s' w' :
  queries m = false ->
  call m s w = (out, s', w') ->
  now w' - to_number (lastStatusUpdate s) <= maxStatusUpdateAge s ->
  getStatuses false s' w' = (Ok (statuses s), s', w') /\
  forall r, statuses s = Some r ->
    getFindRobot false s' w' = (Ok (dp103 (dps r)), s', w').
Proof.
  intros Hq H Hage.
  destruct (call_keeps m Hq _ _ _ _ _ H) as [Hc Hm]. simpl in Hc, Hm.
  injection Hc as Hs Hl.
  assert (must_refresh false s' w' = false) as Hfresh
    by (apply within_window; by rewrite Hl, Hm).
  split.
  - rewrite getStatuses_cached; [by rewrite Hs|exact Hfresh].
  - intros r Hr. unfold getFindRobot.
    rewrite (unforced_hit dp103 _ _ Hfresh), Hs, Hr. reflexivity.
Qed.

(** X8.  Every accessor reads the fields of one and the same snapshot:
    once a query has completed a transport read with reply [r], the
    unforced accessors called on the session within the window (no other
    read in between) return the fields of [r], each without any request
    and without changing the session. *)
Theorem accessors_share_snapshot (force : bool) (s : RoboVac) (w : World)
    r s' w' :
  getStatuses force s w = (Ok (Some r), s', w') ->
  In (ApiGet true) (events_since w w') ->
  forall s2 w2,
    cache s2 = cache s' -> maxStatusUpdateAge s2 = maxStatusUpdateAge s' ->
    now w2 - now w' <= maxStatusUpdateAge s' ->
    getPlayPause false s2 w2 = (Ok (dp2 (dps r)), s2, w2) /\
    getWorkMode false s2 w2 = (Ok (dp5 (dps r)), s2, w2) /\
    getWorkStatus false s2 w2 = (Ok (dp15 (dps r)), s2, w2) /\
    getCleanSpeed false s2 w2 = (Ok (dp102 (dps r)), s2, w2) /\
    getFindRobot false s2 w2 = (Ok (dp103 (dps r)), s2, w2) /\
    getBatteyLevel false s2 w2 = (Ok (dp104 (dps r)), s2, w2) /\
    getErrorCode false s2 w2 = (Ok (dp106 (dps r)), s2, w2).
Proof.
  intros H Hin s2 w2 Hc2 Hm2 Hage.
  destruct (query_outcomes _ _ _ _ _ _ H) as [_ [(_ & _ & ->)|(_ & Hc & _)]].
  { rewrite events_since_refl in Hin. destruct Hin. }
  rewrite Hc in Hc2. injection Hc2 as Hs Hl.
  assert (must_refresh false s2 w2 = false) as Hfresh
    by (apply within_window; rewrite Hl, Hm2; simpl; lia).
  unfold getPlayPause, getWorkMode, getWorkStatus, getCleanSpeed,
    getFindRobot, getBatteyLevel, getErrorCode.
  rewrite !(unforced_hit _ _ _ Hfresh), Hs. repeat split.
Qed.

(** X9.  The first query on a newly constructed session goes to the
    device: the capture time starts as [null], which the age test counts
    as time 0, so whenever the clock reads more than 30000 ms the unforced
    query behaves exactly as the forced one.  (At a clock reading of at
    most 30000 ms the test passes instead, the query returns the [null]
    snapshot without any request, and an accessor throws on it.) *)
Theorem first_query_reads (config0 : Config) (timeout : Z) (w : World) s0 :
  RoboVac_new config0 timeout w = Ok s0 ->
  (30000 < now w -> getStatuses false s0 w = getStatuses true s0 w) /\
  (now w <= 30000 ->
   getStatuses false s0 w = (Ok None, s0, w) /\
   exists e, getBatteyLevel false s0 w = (Throw e, s0, w)).
Proof.
  unfold RoboVac_new. destruct (falsy _); [discriminate|].
  destruct (tuyapi_rejects _ _); [discriminate|]. intros [= <-].
  split; intros Hnow.
  - rewrite !getStatuses_unfold. unfold must_refresh. simpl.
    rewrite Z.sub_0_r. change (1000 * (1 * 30)) with 30000.
    destruct (Z.gtb_spec (now w) 30000); [reflexivity|lia].
  - assert (must_refresh false
              {| api := {| device_id := deviceId config0;
                           device_key := localKey config0;
                           device_ip := ip config0;
                           device_port := port config0 |};
                 connected := false; statuses := None;
                 lastStatusUpdate := None;
                 maxStatusUpdateAge := 1000 * (1 * 30);
                 timeoutDuration := timeout |} w = false) as Hfresh
      by (apply within_window; simpl; lia).
    split.
    + by rewrite getStatuses_cached.
    + unfold getBatteyLevel. rewrite (unforced_hit dp104 _ _ Hfresh).
      simpl. eauto.
Qed.

(** ** The GET and SET handlers of the accessory *)

Lemma one_callback w w1 w2 cb :
  extends_with is_api w w1 -> is_callback cb = true ->
  trace w2 = trace w1 ++ [cb] ->
  callbacks (events_since w w2) = [cb].
Proof.
  intros [Htr Hall]%extends_events Hcb Htr2.
  rewrite (events_since_trans _ _ _ _ _ Htr Htr2).
  unfold callbacks. rewrite List.filter_app.
  fold (callbacks (events_since w w1)).
  rewrite (api_no_callbacks _ Hall). simpl. by rewrite Hcb.
Qed.

Lemma api_on_accessor {A} force (field : Dps -> A) a w out a1 w1 :
  on_roboVac (st <- getStatuses force;; dps_of st field) a w = (out, a1, w1) ->
  extends_with is_api w w1.
Proof.
  intros H.
  exact (Ext_on_roboVac is_api _ (api_accessor force field) _ _ _ _ _ H).
Qed.

Ltac handler_once field :=
  unfold try_catch, bind, log_debug, with_world; simpl;
  match goal with
  | |- context [on_roboVac ?acc ?a ?w0] =>
      let E := fresh "E" in
      destruct (on_roboVac acc a w0) as [[[?|?] ?] ?] eqn:E;
      apply (api_on_accessor false field) in E;
      simpl; eexists _, _, _; (split; [reflexivity|]);
      (eapply one_callback; [exact E|reflexivity|reflexivity])
  end.

(** X10.  Each of the five GET handlers other than [getCleanState]
    completes exactly once in every case, whatever the state of the
    accessory and whatever the transport does: its own promise resolves
    (it never throws), and exactly one completion callback, with a [null]
    error, is among the events of the run. *)
Theorem get_handlers_complete_once (a : Accessory) (w : World) :
  (exists a' w' v,
     getBatteryLevel HapCallback a w = (Ok tt, a', w') /\
     callbacks (events_since w w') = [GetCallback ErrNull v]) /\
  (exists a' w' v,
     getChargingState HapCallback a w = (Ok tt, a', w') /\
     callbacks (events_since w w') = [GetCallback ErrNull v]) /\
  (exists a' w' v,
     getStatusLowBattery HapCallback a w = (Ok tt, a', w') /\
     callbacks (events_since w w') = [GetCallback ErrNull v]) /\
  (exists a' w' v,
     getFindRobot_handler HapCallback a w = (Ok tt, a', w') /\
     callbacks (events_since w w') = [GetCallback ErrNull v]) /\
  (exists a' w' v,
     getErrorStatus HapCallback a w = (Ok tt, a', w') /\
     callbacks (events_since w w') = [GetCallback ErrNull v]).
Proof.
  repeat split.
  - unfold getBatteryLevel. handler_once dp104.
  - unfold getChargingState. handler_once dp15.
  - unfold getStatusLowBattery. handler_once dp104.
  - unfold getFindRobot_handler. handler_once dp103.
  - unfold getErrorStatus. handler_once dp106.
Qed.

(** X11.  When the work-status accessor answers, the charging-state
    handler reports [CHARGING] for the status "Charging" and
    [NOT_CHARGEABLE] for every other status, the docked and fully charged
    "completed" included; it never reports [NOT_CHARGING]. *)
Theorem getChargingState_mapping (a : Accessory) (w : World) workStatus a1 w1 :
  on_roboVac (getWorkStatus false) a
    (add_log (LogDebug "getChargingState for") w) = (Ok workStatus, a1, w1) ->
  exists c,
    getChargingState HapCallback a w =
      (Ok tt, a1, add_event (GetCallback ErrNull (CvChargingState c)) w1) /\
    (workStatus = WorkStatus.CHARGING -> c = CHARGING) /\
    (workStatus <> WorkStatus.CHARGING -> c = NOT_CHARGEABLE) /\
    c <> NOT_CHARGING.
Proof.
  intros Ha. unfold getChargingState, try_catch, bind, log_debug, with_world.
  simpl. rewrite Ha. simpl. eexists. split; [reflexivity|].
  case_bool_decide; repeat split; intros; congruence.
Qed.

(** When the error-code accessor answers, the error sensor reports motion
    exactly when the code differs from "no_error". *)
Lemma getErrorStatus_mapping (a : Accessory) (w : World) code a1 w1 :
  on_roboVac (getErrorCode false) a w = (Ok code, a1, w1) ->
  getErrorStatus HapCallback a w =
    (Ok tt, a1,
     add_event
       (GetCallback ErrNull (CvBool (negb (bool_decide (code = ErrorCode.NO_ERROR)))))
       w1).
Proof.
  intros Ha. unfold getErrorStatus, try_catch, bind. rewrite Ha. simpl.
  unfold ErrorCode.NO_ERROR. by case_bool_decide.
Qed.

(** X12.  When the play/pause accessor answers, [getCleanState] invokes
    the callback once, with an [undefined] error and the play/pause value,
    without rebuilding the session (the number of retries plays no role).
    Its query is forced: every GET of the clean state costs one read of
    the device, however fresh the cache is. *)
Theorem getCleanState_success (retries : nat) (a : Accessory) (w : World)
    cleanState a1 w1 :
  on_roboVac (getPlayPause true) a
    (add_log (LogDebug "getCleanState for") w) = (Ok cleanState, a1, w1) ->
  getCleanState retries HapCallback a w =
    (Ok tt, a1,
     add_event (GetCallback ErrUndefined (CvBool cleanState))
       (add_log (LogDebug "getCleanState returned") w1)) /\
  reads (events_since w w1) = [ApiGet true].
Proof.
  intros Ha. split.
  - destruct retries; simpl;
      unfold try_catch, bind, log_debug, with_world; simpl;
      by rewrite Ha.
  - apply on_roboVac_inv in Ha
      as [(rv & rv' & _ & Hm & _) | (_ & _ & _ & e & ?)]; [|discriminate].
    unfold getPlayPause in Hm.
    apply bind_inv in Hm as [(v & s0 & w0 & H0 & H3) | (e & _ & ?)];
      [|discriminate].
    destruct (forced_query_reads _ _ _ _ _ H0) as (Hr & _ & _ & r & ->).
    simpl in H3. injection H3 as _ _ <-. exact Hr.
Qed.

(** X13.  A SET of the find-robot switch that completes has issued one
    write, of the requested value to the find-robot data point (behind the
    connection step), and then the completion callback, and nothing else;
    a SET that fails never invokes the callback. *)
Theorem setFindRobot_handler_sequence (state : bool) (a : Accessory)
    (w : World) :
  match setFindRobot_handler state HapCallback a w with
  | (Throw _, _, w') => callbacks (events_since w w') = []
  | (Ok _, _, w') =>
      exists pre, forallb is_prelude pre = true /\
        events_since w w' =
          pre ++ [ApiSet true {[ FIND_ROBOT := VBool state ]}; SetCallback]
  end.
Proof.
  destruct (setFindRobot_handler state HapCallback a w)
    as [[out a'] w'] eqn:H.
  unfold setFindRobot_handler in H.
  apply bind_inv in H as [([] & a0 & w0 & H0 & H) | (e & H0 & _)];
    [|discriminate].
  injection H0 as <- <-.
  apply bind_inv in H as [([] & a1 & w1 & H1 & H) | (e & H1 & ->)].
  - injection H as <- <- <-.
    apply on_roboVac_inv in H1
      as [(rv & rv' & _ & Hm & _) | (_ & _ & _ & e & ?)]; [|discriminate].
    destruct (doWork_set_ok _ _ _ _ _ Hm) as (pre & Hall & Htr).
    exists pre. split; [exact Hall|].
    apply events_since_app. simpl in *. by rewrite Htr, <- !app_assoc.
  - assert (preserves (Ext is_api) (setFindRobot state)) as Hp
      by (apply Ext_doWork_set; auto using is_api_find, is_api_set).
    pose proof (Ext_on_roboVac is_api _ Hp _ _ _ _ _ H1) as HE.
    destruct (extends_events _ _ _ HE) as [_ Hall].
    by apply api_no_callbacks.
Qed.

(** ** Construction of the accessory *)

Lemma events_since_same w w' : trace w' = trace w -> events_since w w' = [].
Proof. intros H. apply events_since_app. by rewrite app_nil_r. Qed.

#[global] Instance ButRoboVac_preorder : PreOrder ButRoboVac.
Proof.
  split.
  - intros [a w]. unfold ButRoboVac. auto 10.
  - intros [a1 w1] [a2 w2] [a3 w3] (? & ? & ? & ? & ? & ?)
      (? & ? & ? & ? & ? & ?).
    unfold ButRoboVac; simpl in *. repeat split; congruence.
Qed.

Lemma ButRoboVac_with_world f : preserves ButRoboVac (with_world f).
Proof. intros a w out a' w' [= <- <- <-]. unfold ButRoboVac. auto 10. Qed.

Lemma ButRoboVac_set_roboVac rv : preserves ButRoboVac (modify (set_roboVac rv)).
Proof. intros a w out a' w' [= <- <- <-]. unfold ButRoboVac. auto 10. Qed.

Lemma ButRoboVac_on_roboVac {A} (m : M RoboVac A) :
  preserves ButRoboVac (on_roboVac m).
Proof.
  intros a w out a' w' H.
  apply on_roboVac_inv in H as [(rv & rv' & _ & _ & ->) | (_ & -> & _)];
    unfold ButRoboVac; auto 10.
Qed.

Lemma ButRoboVac_new_RoboVac (f : Accessory -> World -> Outcome RoboVac) :
  preserves ButRoboVac (fun a w => (f a w, a, w)).
Proof. intros a w out a' w' [= <- <- <-]. unfold ButRoboVac. auto 10. Qed.

Lemma ButRoboVac_setup : preserves ButRoboVac setup.
Proof.
  unfold setup. pres;
    auto using ButRoboVac_set_roboVac, ButRoboVac_on_roboVac,
      ButRoboVac_new_RoboVac.
Qed.

Lemma setup_without_deviceId a w :
  falsy (deviceId (config a)) = true ->
  setup a w = (Throw (JsErr "You must pass through deviceId"), a, w).
Proof.
  intros Hd. unfold setup, bind, get_self, RoboVac_new. by rewrite Hd.
Qed.

(** X14.  The constructor of the accessory always returns an accessory,
    also when the configuration is unusable.  The session configuration is
    taken from the accessory configuration with the port fixed to 6668.
    The information service is always exposed; the vacuum is a switch or a
    fan as [useSwitchService] says; the battery service, the find switch
    and the error sensor are exposed exactly when they are not disabled or
    hidden.  No completion callback is invoked during construction.  With
    a missing or empty [deviceId] the accessory is left without a session
    and no request is issued. *)
Theorem Accessory_new_spec (c : AccessoryConfig) (w : World) :
  config (Accessory_new c w).1 =
    {| deviceId := cfg_deviceId c; localKey := cfg_localKey c;
       ip := cfg_ip c; port := 6668 |} /\
  In AccessoryInformation (services (Accessory_new c w).1) /\
  (In (SwitchService "vacuum") (services (Accessory_new c w).1)
   <-> cfg_useSwitchService c = true) /\
  (In (FanService "vacuum") (services (Accessory_new c w).1)
   <-> cfg_useSwitchService c = false) /\
  (In BatteryService (services (Accessory_new c w).1)
   <-> cfg_disableBatteryLevel c = false) /\
  (In (SwitchService "find") (services (Accessory_new c w).1)
   <-> cfg_hideFindButton c = false) /\
  (In MotionSensorService (services (Accessory_new c w).1)
   <-> cfg_hideErrorSensor c = false) /\
  callbacks (events_since w (Accessory_new c w).2) = [] /\
  (falsy (cfg_deviceId c) = true ->
   roboVac (Accessory_new c w).1 = None /\
   events_since w (Accessory_new c w).2 = []).
Proof.
  unfold Accessory_new.
  match goal with
  | |- context [bind (detached setup) ?k ?a0 w] =>
      set (a := a0); destruct (bind (detached setup) k a w)
        as [[out a'] w'] eqn:H
  end.
  assert (ButRoboVac (a, w) (a', w')) as (_ & Hcfg & _ & _ & _ & Hsv).
  { revert H. apply preserves_bind; [apply _| |intros ?].
    - apply preserves_detached, ButRoboVac_setup.
    - apply ButRoboVac_with_world. }
  assert (extends_with is_api w w') as HE.
  { revert H. apply (preserves_bind (Ext is_api)).
    - apply preserves_detached, api_setup.
    - intros ?. apply Ext_log_info. }
  simpl in Hcfg, Hsv. simpl. rewrite Hcfg, Hsv.
  split; [reflexivity|].
  split; [subst a; simpl; auto|].
  do 5 (split;
        [subst a; simpl;
         destruct (cfg_useSwitchService c), (cfg_disableBatteryLevel c),
           (cfg_hideFindButton c), (cfg_hideErrorSensor c);
         simpl; split; intros; try done; intuition congruence|]).
  split.
  - destruct (extends_events _ _ _ HE) as [_ Hall].
    exact (api_no_callbacks _ Hall).
  - intros Hd. revert H. unfold bind, detached.
    rewrite (setup_without_deviceId a w Hd).
    unfold log_info, with_world. intros H'. injection H' as _ Ha Hw.
    rewrite <- Ha, <- Hw. split; [reflexivity|].
    by apply events_since_same.
Qed.

(** X15.  An accessory without a session (its configuration has no
    [deviceId], so [setup] never got past the constructor of the session)
    still answers: the five GET handlers other than [getCleanState] push
    their defaults (0 for the battery level, [false] for the rest) without
    any request, while [getCleanState] and the two SET handlers fail
    without ever invoking their callback and without any request. *)
Theorem accessory_without_session (a : Accessory) (w : World) :
  roboVac a = None ->
  falsy (deviceId (config a)) = true ->
  events_since w (getBatteryLevel HapCallback a w).2
    = [GetCallback ErrNull (CvNum 0)] /\
  events_since w (getChargingState HapCallback a w).2
    = [GetCallback ErrNull (CvBool false)] /\
  events_since w (getStatusLowBattery HapCallback a w).2
    = [GetCallback ErrNull (CvBool false)] /\
  events_since w (getFindRobot_handler HapCallback a w).2
    = [GetCallback ErrNull (CvBool false)] /\
  events_since w (getErrorStatus HapCallback a w).2
    = [GetCallback ErrNull (CvBool false)] /\
  (forall retries,
     exists e w', getCleanState retries HapCallback a w = (Throw e, a, w') /\
                  events_since w w' = []) /\
  (forall state,
     exists e w', setCleanState state HapCallback a w = (Throw e, a, w') /\
                  events_since w w' = []) /\
  (forall state,
     exists e w', setFindRobot_handler state HapCallback a w = (Throw e, a, w') /\
                  events_since w w' = []).
Proof.
  intros Hrv Hd.
  assert (forall A (m : M RoboVac A) w0,
            on_roboVac m a w0 =
            (Throw (JsErr "TypeError: Cannot read properties of undefined"),
             a, w0)) as Hno
    by (intros; unfold on_roboVac; by rewrite Hrv).
  repeat split.
  - unfold getBatteryLevel, try_catch, bind, log_debug, with_world. simpl.
    rewrite Hno. by apply events_since_app.
  - unfold getChargingState, try_catch, bind, log_debug, with_world. simpl.
    rewrite Hno. by apply events_since_app.
  - unfold getStatusLowBattery, try_catch, bind. rewrite Hno.
    by apply events_since_app.
  - unfold getFindRobot_handler, try_catch, bind, log_debug, with_world.
    simpl. rewrite Hno. by apply events_since_app.
  - unfold getErrorStatus, try_catch, bind. rewrite Hno.
    by apply events_since_app.
  - intros retries.
    destruct retries; simpl;
      unfold try_catch, bind, log_debug, with_world; simpl;
      rewrite Hno; unfold bind; rewrite (setup_without_deviceId _ _ Hd);
      eexists _, _; (split; [reflexivity|by apply events_since_same]).
  - intros state. unfold setCleanState, bind, log_debug, with_world. simpl.
    rewrite Hno. eexists _, _. split; [reflexivity|].
    by apply events_since_same.
  - intros state. unfold setFindRobot_handler, bind, log_debug, with_world.
    simpl. rewrite Hno. eexists _, _. split; [reflexivity|].
    by apply events_since_same.
Qed.

(** ** Starting a cleaning run *)

Lemma setWorkMode_events v s w out s' w' :
  setWorkMode v s w = (out, s', w') ->
  extends_with is_api w w' /\
  ((exists e, out = Throw e) /\ writes (events_since w w') = [] \/
   writes (events_since w w') = [ApiSet true {[ WORK_MODE := VStr v ]}]).
Proof.
  intros H. split.
  { exact (api_setWorkMode v _ _ _ _ _ H). }
  unfold setWorkMode in H. rewrite doWork_split in H.
  destruct (doWork (ret tt) s w) as [[[[]|e] s1] w1] eqn:E;
    destruct (doWork_prelude _ _ _ _ _ E)
      as (_ & _ & _ & _ & _ & pre & Hpre & Hall).
  - right. unfold bind, log_debug, with_world in H.
    destruct (set_spec {[ WORK_MODE := VStr v ]} s1
                (add_log (LogDebug "Setting WorkMode to") w1))
      as (s2 & w2 & Hq & Htr & _).
    rewrite Hq in H. injection H as _ _ <-. simpl in Htr.
    rewrite (events_since_trans _ _ _ _ _ Hpre Htr).
    unfold writes. rewrite List.filter_app. fold (writes pre).
    by rewrite (prelude_no_writes _ Hall).
  - left. injection H as <- _ <-. split; [eauto|].
    rewrite (events_since_app _ _ _ Hpre). by apply prelude_no_writes.
Qed.

(** X16.  [startCleaning] first queries the status and then switches the
    work mode to "auto".  Whatever happens, the only write it can issue is
    that of "auto" to the work-mode data point, at most once; when it
    returns normally it has issued exactly that write.  It never writes the
    play/pause data point. *)
Theorem startCleaning_writes (force : bool) (s : RoboVac) (w : World) :
  match startCleaning force s w with
  | (Ok _, _, w') =>
      writes (events_since w w') =
        [ApiSet true {[ WORK_MODE := VStr WorkMode.AUTO ]}]
  | (Throw _, _, w') =>
      writes (events_since w w') = [] \/
      writes (events_since w w') =
        [ApiSet true {[ WORK_MODE := VStr WorkMode.AUTO ]}]
  end.
Proof.
  destruct (startCleaning force s w) as [[out s'] w'] eqn:H.
  unfold startCleaning in H.
  apply bind_inv in H as [(v & s1 & w1 & H1 & H) | (e & H1 & ->)].
  - pose proof (Ext_getStatuses is_query (fun _ => eq_refl) eq_refl
                  (fun _ => eq_refl) force _ _ _ _ _ H1) as HE1.
    unfold Ext in HE1; simpl in HE1.
    apply bind_inv in H as [([] & s2 & w2 & H2 & H) | (e & H2 & _)];
      [|discriminate].
    pose proof (Ext_log_debug is_query _ _ _ _ _ _ H2) as HE2.
    unfold Ext in HE2; simpl in HE2.
    pose proof (extends_trans _ _ _ _ HE1 HE2) as HE12.
    assert (writes (events_since w w2) = []) as Hw2.
    { destruct (extends_events _ _ _ HE12) as [_ Hall].
      revert Hall. apply filter_none. by intros []. }
    apply bind_inv in H as [([] & s3 & w3 & H3 & H) | (e & H3 & ->)].
    + pose proof (Ext_log_debug is_api _ _ _ _ _ _ H) as HE4.
      unfold Ext in HE4; simpl in HE4.
      injection H as <- _ Hw'.
      destruct (setWorkMode_events _ _ _ _ _ _ H3)
        as [HE3 [[[e ?] _]|Hw3]]; [discriminate|].
      assert (events_since w w' = events_since w w2 ++ events_since w2 w3)
        as ->.
      { rewrite <- Hw'. exact (events_since_chain _ _ _ _ _ HE12 HE3). }
      unfold writes in *. by rewrite List.filter_app, Hw2, Hw3.
    + destruct (setWorkMode_events _ _ _ _ _ _ H3) as [HE3 Hw3].
      rewrite (events_since_chain _ _ _ _ _ HE12 HE3).
      unfold writes in *. rewrite List.filter_app, Hw2. simpl.
      destruct Hw3 as [[_ ->]| ->]; auto.
  - left.
    pose proof (Ext_getStatuses is_query (fun _ => eq_refl) eq_refl
                  (fun _ => eq_refl) force _ _ _ _ _ H1) as HE1.
    destruct (extends_events _ _ _ HE1) as [_ Hall].
    revert Hall. apply filter_none. by intros [].
Qed.

(** ** Rebuilding the session *)

Lemma new_session_fields config0 timeout w s0 :
  RoboVac_new config0 timeout w = Ok s0 ->
  cache s0 = (None, None) /\ connected s0 = false /\
  maxStatusUpdateAge s0 = 30000.
Proof.
  unfold RoboVac_new. destruct (falsy _); [discriminate|].
  destruct (tuyapi_rejects _ _); [discriminate|]. by intros [= <-].
Qed.

(** X17.  [setup] replaces the session of the accessory by a newly
    constructed one and queries it; nothing of the old session survives.
    Given a configuration the constructor accepts and a clock past
    30000 ms, the query is a forced one in effect; when [setup] returns,
    the new session holds the snapshot just read (one read was issued),
    and when it throws, the accessory is left with the new session and an
    empty cache, never with the snapshot of the session it had before. *)
Theorem setup_rebuilds (a : Accessory) (w : World) s0 :
  RoboVac_new (config a) 2 w = Ok s0 ->
  30000 < now w ->
  setup a w = on_roboVac (getStatuses true) (set_roboVac (Some s0) a) w /\
  match setup a w with
  | (Ok v, a', w') =>
      exists rv r,
        roboVac a' = Some rv /\ v = Some r /\
        cache rv = (Some r, Some (now w')) /\
        reads (events_since w w') = [ApiGet true]
  | (Throw e, a', w') =>
      exists rv, roboVac a' = Some rv /\ cache rv = (None, None)
  end.
Proof.
  intros Hnew Hnow.
  destruct (new_session_fields _ _ _ _ Hnew) as (Hc0 & _ & Hm0).
  assert (setup a w
          = on_roboVac (getStatuses true) (set_roboVac (Some s0) a) w) as Hs.
  { unfold setup, bind, get_self, modify. rewrite Hnew.
    unfold on_roboVac. simpl. rewrite !getStatuses_unfold.
    unfold must_refresh. injection Hc0 as _ Hl. rewrite Hl, Hm0. simpl.
    rewrite Z.sub_0_r.
    by destruct (Z.gtb_spec (now w) 30000); [|lia]. }
  split; [exact Hs|]. rewrite Hs. unfold on_roboVac. simpl.
  destruct (getStatuses true s0 w) as [[[v|e] rv] w'] eqn:E.
  - destruct (forced_query_reads _ _ _ _ _ E) as (Hr & _ & _ & r & ->).
    exists rv, r. repeat split; auto.
    destruct (query_outcomes _ _ _ _ _ _ E)
      as [_ [(Hv & _)|(_ & Hc & _)]]; [|exact Hc].
    injection Hc0 as Hs0 _. congruence.
  - exists rv. split; [reflexivity|].
    destruct (query_outcomes _ _ _ _ _ _ E) as [_ Hc]. congruence.
Qed.

(** * The further properties at concrete inputs *)

(** X4 at a write on a session with a configured address. *)
Lemma configured_session_never_discovers_witness :
  configured sample_session = true /\
  api (call (m_setFindRobot true) sample_session sample_up).1.2
  = api sample_session.
Proof.
  split; [reflexivity|].
  exact (proj1 (configured_session_never_discovers (m_setFindRobot true)
                  sample_session sample_up eq_refl)).
Defined.

(** X6 at a forced query against an unreachable robot. *)
Lemma failed_query_keeps_snapshot_witness :
  getStatuses true sample_session sample_down
  = (Throw (JsErr "connection timed out"), failed_query.1.2, failed_query.2)
  /\ cache failed_query.1.2 = cache sample_session.
Proof.
  assert (getStatuses true sample_session sample_down
          = (Throw (JsErr "connection timed out"),
             failed_query.1.2, failed_query.2)) as Hrun
    by (vm_compute; exact eq_refl).
  split; [exact Hrun|].
  exact (proj1 (failed_query_keeps_snapshot true sample_session sample_down
                  (JsErr "connection timed out")
                  failed_query.1.2 failed_query.2 Hrun)).
Defined.

(** X7 at a find-robot write one second after the snapshot was taken. *)
Lemma command_leaves_snapshot_stale_witness :
  queries (m_setFindRobot true) = false /\
  call (m_setFindRobot true) sample_session sample_up
  = (find_write.1.1, find_write.1.2, find_write.2) /\
  now find_write.2 - to_number (lastStatusUpdate sample_session)
  <= maxStatusUpdateAge sample_session /\
  getStatuses false find_write.1.2 find_write.2
  = (Ok (statuses sample_session), find_write.1.2, find_write.2).
Proof.
  assert (call (m_setFindRobot true) sample_session sample_up
          = (find_write.1.1, find_write.1.2, find_write.2)) as Hrun
    by (vm_compute; exact eq_refl).
  assert (now find_write.2 - to_number (lastStatusUpdate sample_session)
          <= maxStatusUpdateAge sample_session) as Hage
    by (vm_compute; discriminate).
  split; [reflexivity|]. split; [exact Hrun|]. split; [exact Hage|].
  exact (proj1 (command_leaves_snapshot_stale (m_setFindRobot true)
                  sample_session sample_up find_write.1.1 find_write.1.2
                  find_write.2 eq_refl Hrun Hage)).
Defined.

(** X8 at a battery read right after a completed query. *)
Lemma accessors_share_snapshot_witness :
  getStatuses true sample_session sample_up
  = (Ok (Some (Sample.status "Charging" 100)),
     completed_query.1.2, completed_query.2) /\
  getBatteyLevel false completed_query.1.2 completed_query.2
  = (Ok (dp104 (dps (Sample.status "Charging" 100))),
     completed_query.1.2, completed_query.2).
Proof.
  assert (getStatuses true sample_session sample_up
          = (Ok (Some (Sample.status "Charging" 100)),
             completed_query.1.2, completed_query.2)) as Hrun
    by (vm_compute; exact eq_refl).
  assert (In (ApiGet true) (events_since sample_up completed_query.2))
    as Hin by (vm_compute; right; left; exact eq_refl).
  assert (now completed_query.2 - now completed_query.2
          <= maxStatusUpdateAge completed_query.1.2) as Hage
    by (vm_compute; discriminate).
  split; [exact Hrun|].
  exact (proj1 (proj2 (proj2 (proj2 (proj2 (proj2
           (accessors_share_snapshot true sample_session sample_up
              (Sample.status "Charging" 100)
              completed_query.1.2 completed_query.2 Hrun Hin
              completed_query.1.2 completed_query.2 eq_refl eq_refl
              Hage))))))).
Defined.

(** X9 at a session constructed from the sample configuration. *)
Lemma first_query_reads_witness :
  RoboVac_new Sample.config0 2 sample_up = Ok sample_fresh /\
  30000 < now sample_up /\
  getStatuses false sample_fresh sample_up
  = getStatuses true sample_fresh sample_up.
Proof.
  split; [reflexivity|]. split; [reflexivity|].
  exact (proj1 (first_query_reads Sample.config0 2 sample_up sample_fresh
                  eq_refl) eq_refl).
Defined.

(** X11 at a docked, fully charged robot. *)
Lemma getChargingState_mapping_witness :
  on_roboVac (getWorkStatus false)
    (Sample.accessory
       (Some (Sample.session true (Sample.status "completed" 100) Sample.t0)))
    (add_log (LogDebug "getChargingState for")
       (Sample.world Sample.unreachable (Sample.t0 + 5000)))
  = (Ok "completed",
     Sample.accessory
       (Some (Sample.session true (Sample.status "completed" 100) Sample.t0)),
     add_log (LogDebug "getChargingState for")
       (Sample.world Sample.unreachable (Sample.t0 + 5000))) /\
  getChargingState HapCallback
    (Sample.accessory
       (Some (Sample.session true (Sample.status "completed" 100) Sample.t0)))
    (Sample.world Sample.unreachable (Sample.t0 + 5000))
  = (Ok tt,
     Sample.accessory
       (Some (Sample.session true (Sample.status "completed" 100) Sample.t0)),
     add_event (GetCallback ErrNull (CvChargingState NOT_CHARGEABLE))
       (add_log (LogDebug "getChargingState for")
          (Sample.world Sample.unreachable (Sample.t0 + 5000)))).
Proof.
  split; [reflexivity|].
  destruct (getChargingState_mapping
              (Sample.accessory
                 (Some (Sample.session true (Sample.status "completed" 100)
                          Sample.t0)))
              (Sample.world Sample.unreachable (Sample.t0 + 5000))
              "completed" _ _ eq_refl)
    as (c & Hrun & _ & Hother & _).
  rewrite Hrun, Hother; [reflexivity|]. discriminate.
Defined.

(** X12 at a GET of the clean state on a reachable robot. *)
Lemma getCleanState_success_witness :
  on_roboVac (getPlayPause true) (Sample.accessory (Some sample_session))
    (add_log (LogDebug "getCleanState for") sample_up)
  = (Ok true, clean_state_read.1.2, clean_state_read.2) /\
  reads (events_since sample_up clean_state_read.2) = [ApiGet true].
Proof.
  assert (on_roboVac (getPlayPause true)
            (Sample.accessory (Some sample_session))
            (add_log (LogDebug "getCleanState for") sample_up)
          = (Ok true, clean_state_read.1.2, clean_state_read.2)) as Hrun
    by (vm_compute; exact eq_refl).
  split; [exact Hrun|].
  exact (proj2 (getCleanState_success 0
                  (Sample.accessory (Some sample_session)) sample_up true
                  clean_state_read.1.2 clean_state_read.2 Hrun)).
Defined.

(** X15 at an accessory configured without a device id. *)
Lemma accessory_without_session_witness :
  roboVac sample_unconfigured = None /\
  falsy (deviceId (config sample_unconfigured)) = true /\
  events_since sample_up (getBatteryLevel HapCallback sample_unconfigured
                            sample_up).2
  = [GetCallback ErrNull (CvNum 0)].
Proof.
  split; [reflexivity|]. split; [reflexivity|].
  exact (proj1 (accessory_without_session sample_unconfigured sample_up
                  eq_refl eq_refl)).
Defined.

(** X17 at a rebuild of an accessory that held a session. *)
Lemma setup_rebuilds_witness :
  RoboVac_new (config (Sample.accessory (Some sample_session))) 2 sample_up
  = Ok sample_fresh /\
  30000 < now sample_up /\
  setup (Sample.accessory (Some sample_session)) sample_up
  = on_roboVac (getStatuses true)
      (set_roboVac (Some sample_fresh)
         (Sample.accessory (Some sample_session))) sample_up.
Proof.
  split; [reflexivity|]. split; [reflexivity|].
  exact (proj1 (setup_rebuilds (Sample.accessory (Some sample_session))
                  sample_up sample_fresh eq_refl eq_refl)).
Defined.

(** X18 at a stop request on a running, reachable robot. *)
Lemma setCleanState_completes_witness :
  roboVac Sample.stop_accessory
  = Some (Sample.session false (Sample.status "Running" 80) Sample.t0) /\
  accepting Sample.stop_world /\
  exists a' w',
    setCleanState false HapCallback Sample.stop_accessory Sample.stop_world
    = (Ok tt, a', w').
Proof.
  assert (accepting Sample.stop_world) as Ha by (intros k; reflexivity).
  split; [reflexivity|]. split; [exact Ha|].
  exact (setCleanState_completes false Sample.stop_accessory
           Sample.stop_world
           (Sample.session false (Sample.status "Running" 80) Sample.t0)
           eq_refl Ha).
Defined.
